(** * Agent deployment service: adapter, task orchestrator and reconcile controller

    A shallow embedding of
    - [internal/adapters/container/kubernetes.go] (the [KubernetesAdapter]),
    - the task-channel [Orchestrator] that drives it, and
    - [docs/alt/main.go] (the watch/queue [Controller] and its [K8sAdapter]),
    followed by the properties established about them.

    The Kubernetes API server is represented by an explicit store that every
    request reads or changes; goroutines are represented by labelled steps of
    a transition system, one step per blocking point of the Go code. *)

From stdpp Require Import base strings gmap list.
From Stdlib Require Import ZArith Lia Ascii.

Open Scope string_scope.
Open Scope list_scope.

(** ** Kubernetes objects and the API server *)

Module K8s.

(** Go [error] values that the code can tell apart. [ErrTransient] stands
    for a failure that is neither NotFound nor AlreadyExists and that leaves
    the store as it was: the server refuses the request (conflict,
    throttling) or the request does not reach it (network, context cancelled
    before the call). A write that the server applies while its caller sees
    an error (the response is lost) is not represented. *)
Inductive error :=
| ErrNotFound (name : string)
| ErrAlreadyExists (name : string)
| ErrTransient (msg : string)
| ErrBadKey (key : string)
| ErrWrap (prefix : string) (e : error).

(** [errors.IsNotFound] *)
Fixpoint IsNotFound (e : error) : bool :=
  match e with
  | ErrNotFound _ => true
  | ErrWrap _ e' => IsNotFound e'
  | _ => false
  end.

Record Container := mkContainer {
  Name : string;
  Image : string;
  Command : list string
}.

Record ObjectMeta := mkObjectMeta {
  meta_Name : string;
  meta_Namespace : string;
  meta_Labels : gmap string string
}.

Record PodSpec := mkPodSpec { Containers : list Container }.

Record Pod := mkPod {
  pod_ObjectMeta : ObjectMeta;
  pod_Spec : PodSpec
}.

Record PodTemplateSpec := mkPodTemplateSpec {
  tmpl_ObjectMeta : ObjectMeta;
  tmpl_Spec : PodSpec
}.

Record DeploymentSpec := mkDeploymentSpec {
  Replicas : option Z;
  Selector : gmap string string;
  Template : PodTemplateSpec
}.

Record Deployment := mkDeployment {
  dep_ObjectMeta : ObjectMeta;
  dep_Spec : DeploymentSpec
}.

(** The [Agent] custom resource ([ai.example.com/v1], resource [agents]),
    read as [*unstructured.Unstructured]: its name, namespace and the image
    its spec asks for. *)
Record Agent := mkAgent {
  agent_Name : string;
  agent_Namespace : string;
  agent_Image : string
}.

(** Requests received by the API server, in the order they were made. *)
Inductive request :=
| GetPod (ns name : string)
| CreatePod (ns : string) (p : Pod)
| GetAgent (ns name : string)
| GetDeployment (ns name : string)
| CreateDeployment (ns : string) (d : Deployment)
| UpdateDeployment (ns : string) (d : Deployment)
| DeleteDeployment (ns name : string).

(** The API server: objects by (namespace, name), the failures that the
    next requests will meet ([Some msg] fails that request with a transient
    error before it is applied, [None] or an exhausted list lets it
    through), and the request log. *)
Record Cluster := mkCluster {
  agents : gmap (string * string) Agent;
  pods : gmap (string * string) Pod;
  deployments : gmap (string * string) Deployment;
  faults : list (option string);
  requests : list request
}.

Definition set_pods (f : gmap (string * string) Pod → gmap (string * string) Pod)
    (c : Cluster) : Cluster :=
  mkCluster (agents c) (f (pods c)) (deployments c) (faults c) (requests c).

Definition set_deployments
    (f : gmap (string * string) Deployment → gmap (string * string) Deployment)
    (c : Cluster) : Cluster :=
  mkCluster (agents c) (pods c) (f (deployments c)) (faults c) (requests c).

Definition set_agents (f : gmap (string * string) Agent → gmap (string * string) Agent)
    (c : Cluster) : Cluster :=
  mkCluster (f (agents c)) (pods c) (deployments c) (faults c) (requests c).

(** A request is logged, then either meets the next injected failure or is
    served from the store. *)
Definition serve {A} (r : request) (real : Cluster → (error + A) * Cluster)
    (c : Cluster) : (error + A) * Cluster :=
  let logged fs := mkCluster (agents c) (pods c) (deployments c) fs (requests c ++ [r]) in
  match faults c with
  | Some msg :: fs => (inl (ErrTransient msg), logged fs)
  | None :: fs => real (logged fs)
  | [] => real (logged [])
  end.

(** The failure, if any, that the next request will meet. *)
Definition next_fault (c : Cluster) : option string :=
  match faults c with
  | f :: _ => f
  | [] => None
  end.

Definition pods_Get (ns name : string) : Cluster → (error + Pod) * Cluster :=
  serve (GetPod ns name) (λ c,
    match pods c !! (ns, name) with
    | Some p => (inr p, c)
    | None => (inl (ErrNotFound name), c)
    end).

Definition pods_Create (ns : string) (p : Pod) : Cluster → (error + Pod) * Cluster :=
  serve (CreatePod ns p) (λ c,
    let name := meta_Name (pod_ObjectMeta p) in
    match pods c !! (ns, name) with
    | Some _ => (inl (ErrAlreadyExists name), c)
    | None => (inr p, set_pods <[(ns, name) := p]> c)
    end).

Definition agents_Get (ns name : string) : Cluster → (error + Agent) * Cluster :=
  serve (GetAgent ns name) (λ c,
    match agents c !! (ns, name) with
    | Some a => (inr a, c)
    | None => (inl (ErrNotFound name), c)
    end).

Definition deployments_Get (ns name : string)
    : Cluster → (error + Deployment) * Cluster :=
  serve (GetDeployment ns name) (λ c,
    match deployments c !! (ns, name) with
    | Some d => (inr d, c)
    | None => (inl (ErrNotFound name), c)
    end).

Definition deployments_Create (ns : string) (d : Deployment)
    : Cluster → (error + Deployment) * Cluster :=
  serve (CreateDeployment ns d) (λ c,
    let name := meta_Name (dep_ObjectMeta d) in
    match deployments c !! (ns, name) with
    | Some _ => (inl (ErrAlreadyExists name), c)
    | None => (inr d, set_deployments <[(ns, name) := d]> c)
    end).

Definition deployments_Update (ns : string) (d : Deployment)
    : Cluster → (error + Deployment) * Cluster :=
  serve (UpdateDeployment ns d) (λ c,
    let name := meta_Name (dep_ObjectMeta d) in
    match deployments c !! (ns, name) with
    | Some _ => (inr d, set_deployments <[(ns, name) := d]> c)
    | None => (inl (ErrNotFound name), c)
    end).

Definition deployments_Delete (ns name : string)
    : Cluster → (error + unit) * Cluster :=
  serve (DeleteDeployment ns name) (λ c,
    match deployments c !! (ns, name) with
    | Some _ => (inr (), set_deployments (delete (ns, name)) c)
    | None => (inl (ErrNotFound name), c)
    end).

End K8s.

(** ** [internal/adapters/container/kubernetes.go] *)

Module Container.
Import K8s.

(** [model.DeploymentTask] *)
Record DeploymentTask := mkTask {
  TenantID : string;
  AgentID : string;
  ContainerImg : string;
  Action : string
}.

#[export] Instance DeploymentTask_eq_dec : EqDecision DeploymentTask.
Proof. solve_decision. Defined.

Record KubernetesAdapter := mkAdapter { namespace : string }.

(** What a Go function of type [func(...) error] did: returned [nil],
    returned an error, or panicked. *)
Inductive outcome :=
| Nil
| Err (e : error)
| Panic (msg : string).

Definition DeployAgent (k : KubernetesAdapter) (task : DeploymentTask) (c : Cluster)
    : outcome * Cluster :=
  let deployment :=
    {| dep_ObjectMeta :=
         {| meta_Name := AgentID task;
            meta_Namespace := "";
            meta_Labels := <["tenant" := TenantID task]> (<["agent" := AgentID task]> ∅) |};
       dep_Spec :=
         {| Replicas := Some 1%Z;
            Selector := <["agent" := AgentID task]> ∅;
            Template :=
              {| tmpl_ObjectMeta :=
                   {| meta_Name := ""; meta_Namespace := "";
                      meta_Labels := <["agent" := AgentID task]> ∅ |};
                 tmpl_Spec :=
                   {| Containers :=
                        [ {| Name := AgentID task;
                             Image := ContainerImg task;
                             Command := [] |} ] |} |} |} |} in
  match deployments_Create (namespace k) deployment c with
  | (inl err, c') => (Err (ErrWrap "deploy error: " err), c')
  | (inr _, c') => (Nil, c')
  end.

(** [deployment.Spec.Template.Spec.Containers[0].Image = img]; [None] is
    the index-out-of-range panic of an empty slice. *)
Definition set_first_image (img : string) (d : Deployment) : option Deployment :=
  match Containers (tmpl_Spec (Template (dep_Spec d))) with
  | [] => None
  | c0 :: cs =>
      Some {| dep_ObjectMeta := dep_ObjectMeta d;
              dep_Spec :=
                {| Replicas := Replicas (dep_Spec d);
                   Selector := Selector (dep_Spec d);
                   Template :=
                     {| tmpl_ObjectMeta := tmpl_ObjectMeta (Template (dep_Spec d));
                        tmpl_Spec :=
                          {| Containers :=
                               {| Name := Name c0; Image := img;
                                  Command := Command c0 |} :: cs |} |} |} |}
  end.

Definition UpdateAgent (k : KubernetesAdapter) (task : DeploymentTask) (c : Cluster)
    : outcome * Cluster :=
  match deployments_Get (namespace k) (AgentID task) c with
  | (inl err, c1) => (Err err, c1)
  | (inr deployment, c1) =>
      match set_first_image (ContainerImg task) deployment with
      | None => (Panic "runtime error: index out of range [0] with length 0", c1)
      | Some deployment' =>
          match deployments_Update (namespace k) deployment' c1 with
          | (inl err, c2) => (Err err, c2)
          | (inr _, c2) => (Nil, c2)
          end
      end
  end.

Definition DeleteAgent (k : KubernetesAdapter) (task : DeploymentTask) (c : Cluster)
    : outcome * Cluster :=
  match deployments_Delete (namespace k) (AgentID task) c with
  | (inl err, c') => (Err err, c')
  | (inr _, c') => (Nil, c')
  end.

End Container.

(** ** The task-channel [Orchestrator] *)

Module Orchestrator.
Import K8s Container.

(** The [container.Adapter] interface, over the state [S] that an
    implementation acts on. *)
Class Adapter (St : Type) := {
  adapter_DeployAgent : DeploymentTask → St → outcome * St;
  adapter_UpdateAgent : DeploymentTask → St → outcome * St;
  adapter_DeleteAgent : DeploymentTask → St → outcome * St
}.

#[export] Instance kubernetes_adapter (k : KubernetesAdapter) : Adapter Cluster := {
  adapter_DeployAgent := DeployAgent k;
  adapter_UpdateAgent := UpdateAgent k;
  adapter_DeleteAgent := DeleteAgent k
}.

(** A call that the test double of [tests/orchestrator_test.go] has
    received: the method of [MockAdapter] that was entered and the task it
    was given. *)
Inductive call :=
| CalledDeploy (t : DeploymentTask)
| CalledUpdate (t : DeploymentTask)
| CalledDelete (t : DeploymentTask).

(** The method name that [mock.Called] reads from its caller, and the
    arguments it was passed (the context apart). *)
Definition call_Method (c : call) : string :=
  match c with
  | CalledDeploy _ => "DeployAgent"
  | CalledUpdate _ => "UpdateAgent"
  | CalledDelete _ => "DeleteAgent"
  end.

Definition call_Arguments (c : call) : DeploymentTask :=
  match c with
  | CalledDeploy t | CalledUpdate t | CalledDelete t => t
  end.

(** testify's [mock.Call], for the expectations of the form that the test
    makes, [On(method, mock.Anything, task).Return(err)]: the method, the
    task to match (the context is matched by [mock.Anything]), the error
    that [args.Error(0)] yields ([None] is [nil]), how often the
    expectation may still be used ([0]: any number of times, [n > 0]: [n]
    more times, [-1]: used up) and how often it was used. *)
Record Call := mkCall {
  Method : string;
  Arguments : DeploymentTask;
  ReturnArguments : option error;
  Repeatability : Z;
  totalCalls : nat
}.

(** testify's [mock.Mock], embedded in [MockAdapter]: the expectations in
    the order they were made and the calls received. The mock has no
    [TestingT] attached, so a failure inside it is a panic. *)
Record Mock := mkMock {
  ExpectedCalls : list Call;
  Calls : list call
}.

(** [m.On(method, mock.Anything, task).Return(err).Times(times)];
    [Once()] is [Times(1)]. *)
Definition On (method : string) (task : DeploymentTask) (err : option error)
    (times : Z) (m : Mock) : Mock :=
  mkMock (ExpectedCalls m ++ [mkCall method task err times 0]) (Calls m).

(** [findExpectedCall]: the first expectation of that method and those
    arguments that is not used up, with its index. *)
Fixpoint findExpectedCall (method : string) (task : DeploymentTask) (cs : list Call)
    : option (nat * Call) :=
  match cs with
  | [] => None
  | c :: cs' =>
      if bool_decide (Method c = method ∧ Arguments c = task ∧ (-1 < Repeatability c)%Z)
      then Some (0%nat, c)
      else prod_map S id <$> findExpectedCall method task cs'
  end.

(** What [MethodCalled] does to the expectation it has found. *)
Definition called (c : Call) : Call :=
  mkCall (Method c) (Arguments c) (ReturnArguments c)
    (if decide (Repeatability c = 1)%Z then (-1)%Z
     else if decide (1 < Repeatability c)%Z then (Repeatability c - 1)%Z
     else Repeatability c)
    (S (totalCalls c)).

(** The body shared by the three methods of [MockAdapter]:
    [args := m.Called(ctx, task); return args.Error(0)]. A call with no
    usable expectation panics and is not recorded (testify's message, which
    names the method, the arguments and the call site, is cut short). *)
Definition Called (entered : call) (m : Mock) : outcome * Mock :=
  match findExpectedCall (call_Method entered) (call_Arguments entered)
          (ExpectedCalls m) with
  | Some (i, c) =>
      (match ReturnArguments c with
       | None => Nil
       | Some e => Err e
       end,
       mkMock (<[i := called c]> (ExpectedCalls m)) (Calls m ++ [entered]))
  | None => (Panic "mock: unexpected method call", m)
  end.

#[export] Instance MockAdapter : Adapter Mock := {|
  adapter_DeployAgent := λ t, Called (CalledDeploy t);
  adapter_UpdateAgent := λ t, Called (CalledUpdate t);
  adapter_DeleteAgent := λ t, Called (CalledDelete t)
|}.

(** [methodWasCalled] and [checkExpectation] of testify: an expectation is
    met when it was used, or a call of its method and arguments was
    received, and it does not wait for further calls. *)
Definition methodWasCalled (method : string) (task : DeploymentTask)
    (calls : list call) : bool :=
  existsb (λ c, bool_decide (call_Method c = method ∧ call_Arguments c = task)) calls.

Definition checkExpectation (m : Mock) (c : Call) : bool :=
  negb (negb (methodWasCalled (Method c) (Arguments c) (Calls m))
        && Nat.eqb (totalCalls c) 0)
  && negb (bool_decide (0 < Repeatability c)%Z).

(** [m.AssertExpectations(t)]: every expectation is met. *)
Definition AssertExpectations (m : Mock) : bool :=
  forallb (checkExpectation m) (ExpectedCalls m).

(** A buffered Go channel. *)
Record chan (A : Type) := mkChan {
  buf : list A;
  cap : nat;
  closed : bool
}.
Arguments mkChan {A}.
Arguments buf {A}.
Arguments cap {A}.
Arguments closed {A}.

(** Where a worker goroutine stands: at its [select], inside [handleTask],
    or returned. *)
Inductive worker :=
| Selecting
| Handling (task : DeploymentTask)
| Returned.

(** Where the caller of [Shutdown] stands: not called, inside
    [o.wg.Wait()] (after [o.cancel()]), or returned. *)
Inductive shutdown_pc :=
| NotCalled
| Waiting
| Finished.

Inductive event :=
| Submitted (task : DeploymentTask)
| Received (workerID : nat) (task : DeploymentTask)
| Handled (workerID : nat) (task : DeploymentTask) (res : outcome)
| Stopping (workerID : nat)
| ShutdownRequested
| ShutdownReturned.

Section orchestrator.
Context {St : Type} `{!Adapter St}.

Record Orchestrator := mkOrchestrator {
  taskQueue : chan DeploymentTask;
  wg : nat;
  k8s : St;
  cancelled : bool;
  workers : list worker;
  shutdown : shutdown_pc;
  panicked : option string;
  events : list event
}.

(** [NewOrchestrator]: the channel has room for 100 tasks, and
    [startWorkers] has added each worker to the wait group. *)
Definition NewOrchestrator (k8sAdapter : St) (count : nat) : Orchestrator :=
  {| taskQueue := mkChan [] 100 false;
     wg := count;
     k8s := k8sAdapter;
     cancelled := false;
     workers := replicate count Selecting;
     shutdown := NotCalled;
     panicked := None;
     events := [] |}.

Definition handleTask (task : DeploymentTask) (a : St) : outcome * St :=
  if String.eqb (Action task) "CREATE" then adapter_DeployAgent task a
  else if String.eqb (Action task) "UPDATE" then adapter_UpdateAgent task a
  else if String.eqb (Action task) "DELETE" then adapter_DeleteAgent task a
  else (Nil, a).

(** One step of one goroutine. *)
Inductive label :=
| SubmitTask (task : DeploymentTask)
| Receive (workerID : nat)
| Handle (workerID : nat)
| CtxDone (workerID : nat)
| ShutdownCancel
| ShutdownClose.

Definition zero_task : DeploymentTask := mkTask "" "" "" "".

Definition with_events (o : Orchestrator) (ev : event) : list event :=
  events o ++ [ev].

Definition panic (msg : string) (o : Orchestrator) : Orchestrator :=
  mkOrchestrator (taskQueue o) (wg o) (k8s o) (cancelled o) (workers o)
    (shutdown o) (Some msg) (events o).

(** [None]: the step cannot be taken in this state (the goroutine is
    elsewhere, or it blocks). A panicked process takes no step. *)
Definition step (l : label) (o : Orchestrator) : option Orchestrator :=
  match panicked o with
  | Some _ => None
  | None =>
    let q := taskQueue o in
    match l with
    | SubmitTask task =>
        (* o.taskQueue <- task *)
        if closed q then Some (panic "send on closed channel" o)
        else if decide (length (buf q) < cap q) then
          Some (mkOrchestrator (mkChan (buf q ++ [task]) (cap q) false) (wg o) (k8s o)
                  (cancelled o) (workers o) (shutdown o) None
                  (with_events o (Submitted task)))
        else None
    | Receive i =>
        (* case task := <-o.taskQueue: any ready case of a select may be
           chosen, also when ctx.Done() is ready too *)
        match workers o !! i with
        | Some Selecting =>
            match buf q with
            | task :: rest =>
                Some (mkOrchestrator (mkChan rest (cap q) (closed q)) (wg o) (k8s o)
                        (cancelled o) (<[i := Handling task]> (workers o))
                        (shutdown o) None (with_events o (Received i task)))
            | [] =>
                if closed q then
                  Some (mkOrchestrator q (wg o) (k8s o) (cancelled o)
                          (<[i := Handling zero_task]> (workers o))
                          (shutdown o) None (with_events o (Received i zero_task)))
                else None
            end
        | _ => None
        end
    | Handle i =>
        match workers o !! i with
        | Some (Handling task) =>
            let '(res, a) := handleTask task (k8s o) in
            let o' := mkOrchestrator q (wg o) a (cancelled o)
                        (<[i := Selecting]> (workers o)) (shutdown o) None
                        (with_events o (Handled i task res)) in
            match res with
            | Panic msg => Some (panic msg o')
            | _ => Some o'
            end
        | _ => None
        end
    | CtxDone i =>
        (* case <-o.ctx.Done(): return, then the deferred o.wg.Done() *)
        match workers o !! i with
        | Some Selecting =>
            if cancelled o then
              Some (mkOrchestrator q (wg o - 1) (k8s o) true
                      (<[i := Returned]> (workers o)) (shutdown o) None
                      (with_events o (Stopping i)))
            else None
        | _ => None
        end
    | ShutdownCancel =>
        (* o.cancel() *)
        match shutdown o with
        | Waiting => None
        | _ => Some (mkOrchestrator q (wg o) (k8s o) true (workers o) Waiting None
                       (with_events o ShutdownRequested))
        end
    | ShutdownClose =>
        (* o.wg.Wait() has returned; close(o.taskQueue) *)
        match shutdown o with
        | Waiting =>
            if decide (wg o = 0) then
              if closed q then Some (panic "close of closed channel" o)
              else Some (mkOrchestrator (mkChan (buf q) (cap q) true) (wg o) (k8s o)
                           (cancelled o) (workers o) Finished None
                           (with_events o ShutdownReturned))
            else None
        | _ => None
        end
    end
  end.

Fixpoint run (ls : list label) (o : Orchestrator) : option Orchestrator :=
  match ls with
  | [] => Some o
  | l :: ls' =>
      match step l o with
      | Some o' => run ls' o'
      | None => None
      end
  end.

Definition reachable (a : St) (count : nat) (o : Orchestrator) : Prop :=
  ∃ ls, run ls (NewOrchestrator a count) = Some o.

Definition received_tasks (evs : list event) : list DeploymentTask :=
  omap (λ ev, match ev with Received _ t => Some t | _ => None end) evs.

Definition handled_tasks (evs : list event) : list DeploymentTask :=
  omap (λ ev, match ev with Handled _ t _ => Some t | _ => None end) evs.

(** The task a worker is handling, and whether it has not returned. *)
Definition held (w : worker) : list DeploymentTask :=
  match w with
  | Handling task => [task]
  | _ => []
  end.

Definition live (w : worker) : list unit :=
  match w with
  | Returned => []
  | _ => [()]
  end.

Definition in_hand (ws : list worker) : list DeploymentTask := ws ≫= held.

Definition alive (ws : list worker) : nat := length (ws ≫= live).

(** The wait group counts the workers that have not returned; every
    task taken from the channel has been handled or is being handled;
    and [Shutdown] has returned only with the wait group at zero and the
    channel closed. *)
Definition accounted (o : Orchestrator) : Prop :=
  wg o = alive (workers o) ∧
  received_tasks (events o) ≡ₚ handled_tasks (events o) ++ in_hand (workers o) ∧
  (shutdown o = Finished → wg o = 0 ∧ closed (taskQueue o) = true).

End orchestrator.

Arguments Orchestrator St : clear implicits.

End Orchestrator.

(** ** The work queue used by the controller

    [docs/alt/main.go] obtains its queue from
    [workqueue.NewNamedRateLimitingQueue(workqueue.DefaultControllerRateLimiter(), ...)];
    the package is imported, not part of the repository. Its operations are
    taken from the contract that section 4.2 of the specification gives for
    the Work Queue. *)

Module WorkQueue.

(** Modelled from the spec: the rate limiter behind the queue, absent from
    the sources: "exponential backoff (base delay doubling per retry, capped
    at a maximum)". *)
Record RateLimiter := mkLimiter {
  baseDelay : Z;
  maxDelay : Z
}.

(** Modelled from the spec: the Work Queue state, absent from the sources:
    the pending keys in arrival order, the keys marked dirty, the keys being
    processed, the closed flag, the retry count of each key, and the
    [AddAfter] timers that have not fired yet (key and delay). *)
Record t := mkQueue {
  queue : list string;
  dirty : gset string;
  processing : gset string;
  shuttingDown : bool;
  failures : gmap string nat;
  waiting : list (string * Z);
  limiter : RateLimiter
}.

(** Modelled from the spec: a new, empty queue (the constructor is absent
    from the sources). *)
Definition NewRateLimitingQueue (l : RateLimiter) : t :=
  mkQueue [] ∅ ∅ false ∅ [] l.

(** Modelled from the spec: [Enqueue(key)], absent from the sources:
    "idempotent; if key is already pending, no-op; if key is currently being
    processed by a worker, mark it dirty so it is re-enqueued exactly once
    immediately after the in-flight run finishes"; after [ShutDown] "no
    further enqueues are accepted". *)
Definition Add (key : string) (q : t) : t :=
  if shuttingDown q then q
  else if decide (key ∈ dirty q) then q
  else if decide (key ∈ processing q) then
    mkQueue (queue q) ({[key]} ∪ dirty q) (processing q) false
      (failures q) (waiting q) (limiter q)
  else
    mkQueue (queue q ++ [key]) ({[key]} ∪ dirty q) (processing q) false
      (failures q) (waiting q) (limiter q).

(** Modelled from the spec: what [Dequeue()] returns, absent from the
    sources: a key, or it "blocks the calling worker until a key is
    available", or after [ShutDown] "a closed signal once drained". *)
Inductive dequeued :=
| Item (key : string) (q : t)
| Closed
| Blocked.

(** Modelled from the spec: [Dequeue()] ([Get] in main.go), absent from the
    sources: the oldest pending key moves from pending and dirty to being
    processed. *)
Definition Get (q : t) : dequeued :=
  match queue q with
  | key :: rest =>
      Item key (mkQueue rest (dirty q ∖ {[key]}) ({[key]} ∪ processing q)
                  (shuttingDown q) (failures q) (waiting q) (limiter q))
  | [] => if shuttingDown q then Closed else Blocked
  end.

(** Modelled from the spec: [Done(key)], absent from the sources: "releases
    the per-key lock and, if the key was marked dirty, re-enqueues it". *)
Definition Done (key : string) (q : t) : t :=
  let requeued := if decide (key ∈ dirty q) then queue q ++ [key] else queue q in
  mkQueue requeued (dirty q) (processing q ∖ {[key]}) (shuttingDown q)
    (failures q) (waiting q) (limiter q).

(** Modelled from the spec: [AddAfter(key, delay)], absent from the sources:
    the key is enqueued once the delay has passed ([Fire], below); a closed
    queue accepts nothing. *)
Definition AddAfter (key : string) (delay : Z) (q : t) : t :=
  if shuttingDown q then q
  else mkQueue (queue q) (dirty q) (processing q) false (failures q)
         (waiting q ++ [(key, delay)]) (limiter q).

(** Modelled from the spec: the [idx]-th timer expires and its key is
    enqueued. *)
Definition Fire (idx : nat) (q : t) : option t :=
  match waiting q !! idx with
  | Some (key, _) =>
      Some (Add key (mkQueue (queue q) (dirty q) (processing q) (shuttingDown q)
                       (failures q) (delete idx (waiting q)) (limiter q)))
  | None => None
  end.

(** Modelled from the spec: the retry count of a key ([NumRequeues] in
    main.go), absent from the sources. *)
Definition NumRequeues (key : string) (q : t) : nat :=
  default 0 (failures q !! key).

(** Modelled from the spec: the backoff for a retry count, absent from the
    sources: "base delay doubling per retry, capped at a maximum". *)
Definition delay (l : RateLimiter) (retry_count : nat) : Z :=
  Z.min (baseDelay l * 2 ^ Z.of_nat retry_count) (maxDelay l).

(** Modelled from the spec: the limiter's answer for the next retry of a
    key, "keyed by retry_count", which it also increments. *)
Definition When (key : string) (q : t) : Z * t :=
  let n := NumRequeues key q in
  (delay (limiter q) n,
   mkQueue (queue q) (dirty q) (processing q) (shuttingDown q)
     (<[key := S n]> (failures q)) (waiting q) (limiter q)).

(** Modelled from the spec: [AddRateLimited(key)] of main.go, absent from
    the sources: [AddAfter] with the limiter's backoff. *)
Definition AddRateLimited (key : string) (q : t) : t :=
  let '(d, q') := When key q in AddAfter key d q'.

(** Modelled from the spec: [Forget(key)], absent from the sources: "resets
    the counter to zero". *)
Definition Forget (key : string) (q : t) : t :=
  mkQueue (queue q) (dirty q) (processing q) (shuttingDown q)
    (delete key (failures q)) (waiting q) (limiter q).

(** Modelled from the spec: [ShutDown()], absent from the sources: "closes
    the queue". *)
Definition ShutDown (q : t) : t :=
  mkQueue (queue q) (dirty q) (processing q) true (failures q) (waiting q) (limiter q).

End WorkQueue.

(** ** [docs/alt/main.go]: the reconcile controller *)

Module Controller.
Import K8s.

(** The [Reconciler] port. *)
Class Reconciler := {
  Reconcile : Agent → Cluster → option error * Cluster
}.

Record K8sAdapter := mkK8sAdapter { namespace : string }.

Definition agent_pod (a : K8sAdapter) (podName : string) : Pod :=
  {| pod_ObjectMeta :=
       {| meta_Name := podName;
          meta_Namespace := namespace a;
          meta_Labels := <["app" := "ai-agent"]> ∅ |};
     pod_Spec :=
       {| Containers :=
            [ {| Name := "agent-container";
                 Image := "busybox";
                 Command := ["sleep"; "3600"] |} ] |} |}.

(** Where the pod of an agent lives: [podName := agentName + "-pod"] in
    the adapter's namespace. *)
Definition pod_key (ns : string) (agentName : string) : string * string :=
  (ns, agentName +:+ "-pod").

(** [K8sAdapter.Reconcile]; [None] is the [nil] error. *)
Definition K8sAdapter_Reconcile (a : K8sAdapter) (agent : Agent) (c : Cluster)
    : option error * Cluster :=
  let agentName := agent_Name agent in
  let podName := agentName +:+ "-pod" in
  match pods_Get (namespace a) podName c with
  | (inr _, c1) => (None, c1)
  | (inl err, c1) =>
      if negb (IsNotFound err) then (Some err, c1)
      else
        match pods_Create (namespace a) (agent_pod a podName) c1 with
        | (inl err', c2) => (Some err', c2)
        | (inr _, c2) => (None, c2)
        end
  end.

#[export] Instance k8s_reconciler (a : K8sAdapter) : Reconciler := {
  Reconcile := K8sAdapter_Reconcile a
}.

(** [strings.Split(key, "/")] of the Go library. *)
Fixpoint split_slash (s : string) : list string :=
  match s with
  | EmptyString => [""]
  | String ch rest =>
      if Ascii.eqb ch "/"%char then "" :: split_slash rest
      else
        match split_slash rest with
        | part :: parts => String ch part :: parts
        | [] => [String ch ""]
        end
  end.

(** [cache.SplitMetaNamespaceKey] of client-go: one part is a name without
    namespace, two parts are namespace and name, anything else is an error. *)
Definition SplitMetaNamespaceKey (key : string) : error + (string * string) :=
  match split_slash key with
  | [name] => inr ("", name)
  | [ns; name] => inr (ns, name)
  | _ => inl (ErrBadKey key)
  end.

(** [cache.MetaNamespaceKeyFunc] of client-go, on an object that has
    metadata (for which it returns no error): [namespace/name], or the bare
    name when the namespace is empty. [cache.DeletionHandlingMetaNamespaceKeyFunc]
    gives the same key for such an object. *)
Definition MetaNamespaceKeyFunc (obj : Agent) : string :=
  if String.eqb (agent_Namespace obj) "" then agent_Name obj
  else agent_Namespace obj +:+ "/" +:+ agent_Name obj.

(** The fields of [Controller] that do not change after [NewController]. *)
Record Controller := mkController {
  reconciler : Reconciler;
  maxRetries : nat
}.

Definition NewController (ns : string) : Controller :=
  {| reconciler := k8s_reconciler (mkK8sAdapter ns); maxRetries := 5 |}.

(** [Controller.reconcile] *)
Definition reconcile (c : Controller) (key : string) (cl : Cluster)
    : option error * Cluster :=
  match SplitMetaNamespaceKey key with
  | inl err => (Some err, cl)
  | inr (ns, name) =>
      match agents_Get ns name cl with
      | (inl err, cl1) =>
          if IsNotFound err then (None, cl1) else (Some err, cl1)
      | (inr agent, cl1) => @Reconcile (reconciler c) agent cl1
      end
  end.

(** A notification of the informer and the handlers that
    [NewController] registers for it. *)
Inductive notification :=
| Added (obj : Agent)
| Updated (old new : Agent)
| Deleted (obj : Agent).

Definition AddFunc (obj : Agent) (q : WorkQueue.t) : WorkQueue.t :=
  WorkQueue.Add (MetaNamespaceKeyFunc obj) q.

Definition UpdateFunc (old new : Agent) (q : WorkQueue.t) : WorkQueue.t :=
  WorkQueue.Add (MetaNamespaceKeyFunc new) q.

Definition DeleteFunc (obj : Agent) (q : WorkQueue.t) : WorkQueue.t :=
  WorkQueue.Add (MetaNamespaceKeyFunc obj) q.

Definition notification_key (n : notification) : string :=
  match n with
  | Added obj => MetaNamespaceKeyFunc obj
  | Updated _ new => MetaNamespaceKeyFunc new
  | Deleted obj => MetaNamespaceKeyFunc obj
  end.

Definition on_notification (n : notification) (q : WorkQueue.t) : WorkQueue.t :=
  match n with
  | Added obj => AddFunc obj q
  | Updated old new => UpdateFunc old new q
  | Deleted obj => DeleteFunc obj q
  end.

(** What [processNextItem] writes to the error log. *)
Inductive logged :=
| Errorf (key : string) (err : error)
| HandleError (err : error).

(** [processNextItem] after [reconcile] has returned [err]: the branch on
    the result, then the deferred [c.queue.Done(key)]. *)
Definition finish (c : Controller) (key : string) (err : option error)
    (q : WorkQueue.t) : WorkQueue.t * list logged :=
  match err with
  | None => (WorkQueue.Done key (WorkQueue.Forget key q), [])
  | Some e =>
      if decide (WorkQueue.NumRequeues key q < maxRetries c) then
        (WorkQueue.Done key (WorkQueue.AddRateLimited key q), [Errorf key e])
      else
        (WorkQueue.Done key (WorkQueue.Forget key q), [HandleError e])
  end.

(** Where a worker goroutine stands inside [processNextItem]: blocked in
    [c.queue.Get()], inside [c.reconcile(key)], back from it with its
    result, or returned from [c.worker] for good. *)
Inductive worker :=
| Idle
| Reconciling (key : string)
| Reconciled (key : string) (err : option error)
| Exited.

(** Where [Run] stands: not called, inside [cache.WaitForCacheSync] having
    been asked for [n] workers, blocked on [<-stopCh] with the workers
    started, or returned. *)
Inductive run_pc :=
| NotStarted
| WaitingForSync (n : nat)
| Running
| Returned.

Inductive event :=
| InformerStarted
| CacheSynced
| CacheSyncFailed
| WorkersStarted (n : nat)
| Dequeued (workerID : nat) (key : string)
| ReconcileCalled (workerID : nat) (key : string) (err : option error)
| Logged (entry : logged)
| Stopped.

Record State := mkState {
  cluster : Cluster;
  queue : WorkQueue.t;
  workers : list worker;
  pc : run_pc;
  stopCh : bool;
  synced : bool;
  undelivered : gset string;
  trace : list event
}.

Definition initial (cl : Cluster) (l : WorkQueue.RateLimiter) : State :=
  {| cluster := cl;
     queue := WorkQueue.NewRateLimitingQueue l;
     workers := [];
     pc := NotStarted;
     stopCh := false;
     synced := false;
     undelivered := ∅;
     trace := [] |}.

(** A name that the API server accepts holds no slash. *)
Fixpoint no_slash (s : string) : bool :=
  match s with
  | EmptyString => true
  | String ch rest => negb (Ascii.eqb ch "/"%char) && no_slash rest
  end.

Definition valid_agent (a : Agent) : bool :=
  no_slash (agent_Namespace a) && no_slash (agent_Name a).

(** One step of the Desired-State Source, of the informer, of [Run] or of
    a worker. A worker takes three steps per item: [c.queue.Get()], the call
    of [c.reconcile(key)] (its requests are served together), and the rest of
    [processNextItem]. [cache.WaitForCacheSync] returns true only once the
    informer has synced and false only once [stopCh] is closed. *)
Inductive label :=
| SourceApply (a : Agent)
| SourceDelete (a : Agent)
| Notify (n : notification)
| InformerSynced
| CloseStopCh
| RunCalled (n : nat)
| SyncReturnedTrue
| SyncReturnedFalse
| StopObserved
| WorkerGet (workerID : nat)
| WorkerReconcile (workerID : nat)
| WorkerFinish (workerID : nat)
| TimerFired (idx : nat).

Definition informer_running (s : State) : bool :=
  match pc s with
  | NotStarted => false
  | _ => negb (stopCh s)
  end.

Definition step (c : Controller) (l : label) (s : State) : option State :=
  match l with
  | SourceApply a =>
      (* the desired state of an agent is created or changed *)
      if valid_agent a then
        Some (mkState
                (set_agents <[(agent_Namespace a, agent_Name a) := a]> (cluster s))
                (queue s) (workers s) (pc s) (stopCh s) (synced s)
                ({[MetaNamespaceKeyFunc a]} ∪ undelivered s) (trace s))
      else None
  | SourceDelete a =>
      if valid_agent a then
        Some (mkState
                (set_agents (delete (agent_Namespace a, agent_Name a)) (cluster s))
                (queue s) (workers s) (pc s) (stopCh s) (synced s)
                ({[MetaNamespaceKeyFunc a]} ∪ undelivered s) (trace s))
      else None
  | Notify n =>
      (* any notification may arrive at any time while the informer runs:
         late, repeated, or as part of a resync *)
      if informer_running s then
        Some (mkState (cluster s) (on_notification n (queue s)) (workers s) (pc s)
                (stopCh s) (synced s) (undelivered s ∖ {[notification_key n]})
                (trace s))
      else None
  | InformerSynced =>
      if informer_running s then
        Some (mkState (cluster s) (queue s) (workers s) (pc s) (stopCh s) true
                (undelivered s) (trace s))
      else None
  | CloseStopCh =>
      Some (mkState (cluster s) (queue s) (workers s) (pc s) true (synced s)
              (undelivered s) (trace s))
  | RunCalled n =>
      (* go c.informer.Run(stopCh) *)
      match pc s with
      | NotStarted =>
          Some (mkState (cluster s) (queue s) (workers s) (WaitingForSync n) (stopCh s)
                  (synced s) (undelivered s) (trace s ++ [InformerStarted]))
      | _ => None
      end
  | SyncReturnedTrue =>
      (* cache.WaitForCacheSync returned true; the workers are started *)
      match pc s with
      | WaitingForSync n =>
          if synced s then
            Some (mkState (cluster s) (queue s) (replicate n Idle) Running (stopCh s)
                    true (undelivered s) (trace s ++ [CacheSynced; WorkersStarted n]))
          else None
      | _ => None
      end
  | SyncReturnedFalse =>
      (* cache.WaitForCacheSync returned false; return, then the deferred
         c.queue.ShutDown() *)
      match pc s with
      | WaitingForSync n =>
          if stopCh s then
            Some (mkState (cluster s) (WorkQueue.ShutDown (queue s)) (workers s) Returned
                    true (synced s) (undelivered s) (trace s ++ [CacheSyncFailed]))
          else None
      | _ => None
      end
  | StopObserved =>
      (* <-stopCh; return, then the deferred c.queue.ShutDown() *)
      match pc s with
      | Running =>
          if stopCh s then
            Some (mkState (cluster s) (WorkQueue.ShutDown (queue s)) (workers s) Returned
                    true (synced s) (undelivered s) (trace s ++ [Stopped]))
          else None
      | _ => None
      end
  | WorkerGet i =>
      match workers s !! i with
      | Some Idle =>
          match WorkQueue.Get (queue s) with
          | WorkQueue.Item key q' =>
              Some (mkState (cluster s) q' (<[i := Reconciling key]> (workers s)) (pc s)
                      (stopCh s) (synced s) (undelivered s)
                      (trace s ++ [Dequeued i key]))
          | WorkQueue.Closed =>
              Some (mkState (cluster s) (queue s) (<[i := Exited]> (workers s)) (pc s)
                      (stopCh s) (synced s) (undelivered s) (trace s))
          | WorkQueue.Blocked => None
          end
      | _ => None
      end
  | WorkerReconcile i =>
      match workers s !! i with
      | Some (Reconciling key) =>
          let '(err, cl) := reconcile c key (cluster s) in
          Some (mkState cl (queue s) (<[i := Reconciled key err]> (workers s)) (pc s)
                  (stopCh s) (synced s) (undelivered s)
                  (trace s ++ [ReconcileCalled i key err]))
      | _ => None
      end
  | WorkerFinish i =>
      match workers s !! i with
      | Some (Reconciled key err) =>
          let '(q', entries) := finish c key err (queue s) in
          Some (mkState (cluster s) q' (<[i := Idle]> (workers s)) (pc s)
                  (stopCh s) (synced s) (undelivered s)
                  (trace s ++ (Logged <$> entries)))
      | _ => None
      end
  | TimerFired idx =>
      match WorkQueue.Fire idx (queue s) with
      | Some q' =>
          Some (mkState (cluster s) q' (workers s) (pc s) (stopCh s) (synced s)
                  (undelivered s) (trace s))
      | None => None
      end
  end.

Fixpoint run (c : Controller) (ls : list label) (s : State) : option State :=
  match ls with
  | [] => Some s
  | l :: ls' =>
      match step c l s with
      | Some s' => run c ls' s'
      | None => None
      end
  end.

(** The key a worker holds between [Get] and [Done]. *)
Definition holding (w : worker) : option string :=
  match w with
  | Reconciling key | Reconciled key _ => Some key
  | Idle | Exited => None
  end.

(** The keys that workers hold, in worker order. *)
Definition in_flight (ws : list worker) : list string := omap holding ws.

(** No key is held by two workers. *)
Definition exclusive (ws : list worker) : Prop :=
  ∀ i j wi wj key,
    ws !! i = Some wi → ws !! j = Some wj →
    holding wi = Some key → holding wj = Some key → i = j.

(** Nothing is left to do: no notification outstanding, nothing pending,
    dirty, in flight or waiting for a timer. *)
Definition drained (s : State) : Prop :=
  undelivered s = ∅ ∧ WorkQueue.queue (queue s) = [] ∧
  WorkQueue.dirty (queue s) = ∅ ∧ WorkQueue.waiting (queue s) = [] ∧
  in_flight (workers s) = [].

(** The bookkeeping of the queue is consistent: no key is pending twice,
    and a pending key is dirty and not being processed. *)
Definition queue_wf (q : WorkQueue.t) : Prop :=
  NoDup (WorkQueue.queue q) ∧
  ∀ key, key ∈ WorkQueue.queue q →
         key ∈ WorkQueue.dirty q ∧ key ∉ WorkQueue.processing q.

(** Queue and workers agree: every key a worker holds is marked as being
    processed, and no two workers hold the same key. *)
Definition serialised (s : State) : Prop :=
  queue_wf (queue s) ∧ exclusive (workers s) ∧
  ∀ i w key, workers s !! i = Some w → holding w = Some key →
             key ∈ WorkQueue.processing (queue s).

(** Events that only a worker produces. *)
Definition worker_event (ev : event) : Prop :=
  match ev with
  | Dequeued _ _ | ReconcileCalled _ _ _ | Logged _ => True
  | _ => False
  end.

(** The shape of the trace in each phase of [Run]. Until
    [cache.WaitForCacheSync] has returned true there are no workers, no
    worker events and no request of the controller... *)
Definition not_started (cl0 : Cluster) (s : State) : Prop :=
  workers s = [] ∧ requests (cluster s) = requests cl0 ∧
  (pc s = NotStarted ∧ trace s = [] ∨
   (∃ n, pc s = WaitingForSync n) ∧ trace s = [InformerStarted] ∨
   pc s = Returned ∧ trace s = [InformerStarted; CacheSyncFailed]).

(** ... afterwards the informer has synced and the trace starts with the
    sync and the start of the workers. *)
Definition started (s : State) : Prop :=
  (pc s = Running ∨ pc s = Returned) ∧ synced s = true ∧
  ∃ n rest, trace s = InformerStarted :: CacheSynced :: WorkersStarted n :: rest ∧
            length (workers s) = n ∧
            Forall (λ ev, worker_event ev ∨ ev = Stopped) rest.

Definition startup_ok (cl0 : Cluster) (s : State) : Prop :=
  not_started cl0 s ∨ started s.

(** The stored agents are the valid objects that [SourceApply] put there. *)
Definition agents_wf (cl : Cluster) : Prop :=
  ∀ nsA name a, agents cl !! (nsA, name) = Some a →
                valid_agent a = true ∧ agent_Namespace a = nsA ∧ agent_Name a = name.

(** Every agent that lacks its pod is still owed a reconcile: a
    notification for it is outstanding, or its key is dirty, or a worker
    holds the key and has not read the store yet. *)
Definition owed (ns : string) (s : State) : Prop :=
  ∀ nsA name a,
    agents (cluster s) !! (nsA, name) = Some a →
    pods (cluster s) !! pod_key ns name = None →
    MetaNamespaceKeyFunc a ∈ undelivered s ∨
    MetaNamespaceKeyFunc a ∈ WorkQueue.dirty (queue s) ∨
    ∃ i, workers s !! i = Some (Reconciling (MetaNamespaceKeyFunc a)).

(** What the convergence argument maintains, for the controller that
    [NewController ns] builds and a start store [cl0]. *)
Definition converging (ns : string) (cl0 : Cluster) (s : State) : Prop :=
  faults (cluster s) = [] ∧
  agents_wf (cluster s) ∧
  deployments (cluster s) = deployments cl0 ∧
  (∀ k, pods (cluster s) !! k = pods cl0 !! k ∨
        (pods cl0 !! k = None ∧ k.1 = ns ∧
         pods (cluster s) !! k = Some (agent_pod (mkK8sAdapter ns) k.2))) ∧
  (WorkQueue.shuttingDown (queue s) = false → owed ns s).

End Controller.

(** ** Sample objects *)

Module Samples.
Import K8s.

Definition agent_v1 : Agent := mkAgent "a1" "default" "v1".
Definition agent_v2 : Agent := mkAgent "a1" "default" "v2".
Definition agent_2 : Agent := mkAgent "a2" "default" "v1".
Definition agent_3 : Agent := mkAgent "a3" "default" "v1".

(** A pod that runs image [v1] for agent [a1]. *)
Definition pod_v1 : Pod :=
  {| pod_ObjectMeta :=
       {| meta_Name := "a1-pod"; meta_Namespace := "default";
          meta_Labels := <["app" := "ai-agent"]> ∅ |};
     pod_Spec :=
       {| Containers := [ {| Name := "agent-container"; Image := "v1";
                             Command := [] |} ] |} |}.

Definition empty_cluster : Cluster := mkCluster ∅ ∅ ∅ [] [].

(** The agent asks for [v2], its pod runs [v1]. *)
Definition drifted : Cluster :=
  mkCluster (<[("default", "a1") := agent_v2]> ∅)
    (<[("default", "a1-pod") := pod_v1]> ∅) ∅ [] [].

(** The agent is gone, its pod is still there. *)
Definition orphaned : Cluster :=
  mkCluster ∅ (<[("default", "a1-pod") := pod_v1]> ∅) ∅ [] [].

(** 5 ms doubling up to 1000 s, in milliseconds. *)
Definition limiter : WorkQueue.RateLimiter := WorkQueue.mkLimiter 5 1000000.

(** Three agents are announced, the cache syncs, three workers start and
    each takes one key. *)
Definition three_at_work : list Controller.label :=
  [ Controller.RunCalled 3;
    Controller.Notify (Controller.Added agent_v1);
    Controller.Notify (Controller.Added agent_2);
    Controller.Notify (Controller.Added agent_3);
    Controller.InformerSynced; Controller.SyncReturnedTrue;
    Controller.WorkerGet 0; Controller.WorkerGet 1; Controller.WorkerGet 2 ].

(** One agent is created and announced, and one worker reconciles it. *)
Definition one_reconciled : list Controller.label :=
  [ Controller.RunCalled 1;
    Controller.SourceApply agent_v1;
    Controller.Notify (Controller.Added agent_v1);
    Controller.InformerSynced; Controller.SyncReturnedTrue;
    Controller.WorkerGet 0; Controller.WorkerReconcile 0;
    Controller.WorkerFinish 0 ].

Definition task_create : Container.DeploymentTask :=
  Container.mkTask "tenant-test" "agent-test" "test-image:v1" "CREATE".

Definition task_update : Container.DeploymentTask :=
  Container.mkTask "tenant-test" "agent-test" "test-image:v2" "UPDATE".

(** The store after [DeployAgent] of [task_create] on an empty cluster. *)
Definition deployed : Cluster :=
  (Container.DeployAgent (Container.mkAdapter "default") task_create empty_cluster).2.

(** The deployment that [deployed] holds for [agent-test], and what the
    fetch of it returns. *)
Definition deployed_deployment : Deployment :=
  {| dep_ObjectMeta :=
       {| meta_Name := "agent-test"; meta_Namespace := "";
          meta_Labels := <["tenant" := "tenant-test"]> (<["agent" := "agent-test"]> ∅) |};
     dep_Spec :=
       {| Replicas := Some 1%Z;
          Selector := <["agent" := "agent-test"]> ∅;
          Template :=
            {| tmpl_ObjectMeta :=
                 {| meta_Name := ""; meta_Namespace := "";
                    meta_Labels := <["agent" := "agent-test"]> ∅ |};
               tmpl_Spec :=
                 {| Containers :=
                      [ {| Name := "agent-test"; Image := "test-image:v1";
                           Command := [] |} ] |} |} |} |}.

Definition fetched : (error + Deployment) * Cluster :=
  deployments_Get "default" "agent-test" deployed.

(** The controller of [main], and the state it reaches from an empty
    cluster along a list of steps. *)
Definition controller : Controller.Controller := Controller.NewController "default".

Definition start : Controller.State := Controller.initial empty_cluster limiter.

Definition after (ls : list Controller.label) : Controller.State :=
  default start (Controller.run controller ls start).

(** Every request fails six times in a row. *)
Definition failing_cluster : Cluster :=
  mkCluster ∅ ∅ ∅ (replicate 6 (Some "timeout")) [].

Definition one_attempt : list Controller.label :=
  [ Controller.WorkerGet 0; Controller.WorkerReconcile 0; Controller.WorkerFinish 0 ].

(** The agent [default/a1] is created and announced; one worker tries it
    six times; each of the first five failures sets a timer, which fires
    before the next attempt. *)
Definition six_attempts : list Controller.label :=
  [ Controller.RunCalled 1; Controller.SourceApply agent_v1;
    Controller.Notify (Controller.Added agent_v1);
    Controller.InformerSynced; Controller.SyncReturnedTrue ] ++
  mjoin (replicate 5 (one_attempt ++ [Controller.TimerFired 0])) ++ one_attempt.

(** The same with three failures before the fourth attempt succeeds. *)
Definition flaky_cluster : Cluster :=
  mkCluster ∅ ∅ ∅ (replicate 3 (Some "timeout")) [].

Definition four_attempts : list Controller.label :=
  [ Controller.RunCalled 1; Controller.SourceApply agent_v1;
    Controller.Notify (Controller.Added agent_v1);
    Controller.InformerSynced; Controller.SyncReturnedTrue ] ++
  mjoin (replicate 3 (one_attempt ++ [Controller.TimerFired 0])) ++ one_attempt.

Definition is_attempt (ev : Controller.event) : bool :=
  match ev with
  | Controller.ReconcileCalled _ _ _ => true
  | _ => false
  end.

(** [stopCh] is closed before the informer has synced. *)
Definition sync_failed : list Controller.label :=
  [ Controller.RunCalled 3; Controller.CloseStopCh; Controller.SyncReturnedFalse ].

Definition fresh_queue : WorkQueue.t := WorkQueue.NewRateLimitingQueue limiter.

(** [default/a1] is being processed after five failed attempts. *)
Definition exhausted_queue : WorkQueue.t :=
  WorkQueue.mkQueue [] ∅ {["default/a1"]} false (<["default/a1" := 5%nat]> ∅) [] limiter.

(** [default/a1] is pending. *)
Definition pending_queue : WorkQueue.t := WorkQueue.Add "default/a1" fresh_queue.

Definition taken_queue : WorkQueue.t :=
  match WorkQueue.Get pending_queue with
  | WorkQueue.Item _ q => q
  | _ => pending_queue
  end.

(** The mock of [tests/orchestrator_test.go] with its one expectation,
    [On("DeployAgent", mock.Anything, task).Return(nil).Once()], and the
    orchestrator of the test: that mock and two workers. The test makes the
    expectation right after [NewOrchestrator] and before its first
    [SubmitTask]; no worker can call the adapter in between, the channel
    being empty. *)
Definition test_mock : Orchestrator.Mock :=
  Orchestrator.On "DeployAgent" task_create None 1 (Orchestrator.mkMock [] []).

Definition test_orchestrator : Orchestrator.Orchestrator Orchestrator.Mock :=
  Orchestrator.NewOrchestrator test_mock 2.

(** A task is taken and handled around the request to shut down. *)
Definition orderly_shutdown : list Orchestrator.label :=
  [ Orchestrator.SubmitTask task_create; Orchestrator.Receive 0;
    Orchestrator.ShutdownCancel; Orchestrator.Handle 0;
    Orchestrator.CtxDone 0; Orchestrator.CtxDone 1;
    Orchestrator.ShutdownClose ].

(** A task sits in the channel when shutdown is requested, and worker 0
    takes it afterwards. *)
Definition late_receive : list Orchestrator.label :=
  [ Orchestrator.SubmitTask task_create; Orchestrator.ShutdownCancel;
    Orchestrator.Receive 0 ].

Definition orchestrator_after (ls : list Orchestrator.label)
    : Orchestrator.Orchestrator Orchestrator.Mock :=
  default test_orchestrator
    (@Orchestrator.run _ Orchestrator.MockAdapter ls test_orchestrator).

(** Two tasks for the same agent are submitted and two workers take one
    each. *)
Definition same_agent_twice : list Orchestrator.label :=
  [ Orchestrator.SubmitTask task_create; Orchestrator.SubmitTask task_update;
    Orchestrator.Receive 0; Orchestrator.Receive 1 ].

(** [Shutdown] runs to completion with both workers idle. *)
Definition shutdown_only : list Orchestrator.label :=
  [ Orchestrator.ShutdownCancel; Orchestrator.CtxDone 0; Orchestrator.CtxDone 1;
    Orchestrator.ShutdownClose ].

End Samples.

(** ** Predicates and projections used by the further properties *)

Module Further.
Import K8s Container.

(** Every deployment is stored under its own name, as the API server keeps
    it. *)
Definition deployments_named (c : Cluster) : Prop :=
  ∀ ns name d, deployments c !! (ns, name) = Some d →
               meta_Name (dep_ObjectMeta d) = name.

(** The tasks that [SubmitTask] has put into the channel, in order. *)
Definition submitted_tasks (evs : list Orchestrator.event) : list DeploymentTask :=
  omap (λ ev, match ev with Orchestrator.Submitted t => Some t | _ => None end) evs.



(** The mock of the test after its one expectation was used. *)
Definition test_mock_called : Orchestrator.Mock :=
  (Orchestrator.Called (Orchestrator.CalledDeploy Samples.task_create)
     Samples.test_mock).2.

(** What holds of the channel, the workers and the context of an
    orchestrator started with [count] workers. *)
Definition orderly {St : Type} (count : nat) (o : Orchestrator.Orchestrator St) : Prop :=
  Orchestrator.cap (Orchestrator.taskQueue o) = 100%nat ∧
  (length (Orchestrator.buf (Orchestrator.taskQueue o)) ≤ 100)%nat ∧
  length (Orchestrator.workers o) = count ∧
  Orchestrator.wg o = Orchestrator.alive (Orchestrator.workers o) ∧
  (Orchestrator.closed (Orchestrator.taskQueue o) = true →
     Orchestrator.alive (Orchestrator.workers o) = 0%nat ∧
     Orchestrator.ShutdownReturned ∈ Orchestrator.events o) ∧
  (Orchestrator.cancelled o = false →
     Orchestrator.alive (Orchestrator.workers o) = count ∧
     Orchestrator.closed (Orchestrator.taskQueue o) = false ∧
     Orchestrator.shutdown o = Orchestrator.NotCalled) ∧
  (Orchestrator.cancelled o = true →
     Orchestrator.ShutdownRequested ∈ Orchestrator.events o) ∧
  (∀ i, Orchestrator.Stopping i ∈ Orchestrator.events o →
        Orchestrator.cancelled o = true) ∧
  submitted_tasks (Orchestrator.events o) =
    Orchestrator.received_tasks (Orchestrator.events o) ++
    Orchestrator.buf (Orchestrator.taskQueue o).

(** [Shutdown] right after one [SubmitTask], with every worker choosing the
    cancellation at its select. *)
Definition strand (task : DeploymentTask) (count : nat) : list Orchestrator.label :=
  [Orchestrator.SubmitTask task; Orchestrator.ShutdownCancel] ++
  (Orchestrator.CtxDone <$> seq 0 count) ++ [Orchestrator.ShutdownClose].

(** The requests that the controller of main.go can make, and those among
    them that only read. *)
Definition reconcile_request (r : request) : Prop :=
  match r with
  | GetAgent _ _ | GetPod _ _ | CreatePod _ _ => True
  | _ => False
  end.

Definition read_request (r : request) : Prop :=
  match r with
  | GetAgent _ _ | GetPod _ _ => True
  | _ => False
  end.

(** The retry bookkeeping of a controller whose queue was built with the
    limiter [l]: no retry count above the ceiling, and every timer carries the
    backoff of a retry count below it. *)
Definition retries_bounded (c : Controller.Controller) (l : WorkQueue.RateLimiter)
    (s : Controller.State) : Prop :=
  WorkQueue.limiter (Controller.queue s) = l ∧
  (∀ key, (WorkQueue.NumRequeues key (Controller.queue s) ≤ Controller.maxRetries c)%nat) ∧
  (∀ key d, (key, d) ∈ WorkQueue.waiting (Controller.queue s) →
            ∃ n, (n < Controller.maxRetries c)%nat ∧ d = WorkQueue.delay l n).

(** The queue is closed exactly when [Run] has returned, which it does only
    with [stopCh] closed; and a worker has left [c.worker] only then. *)
Definition closed_with_Run (s : Controller.State) : Prop :=
  (WorkQueue.shuttingDown (Controller.queue s) = true ↔
   Controller.pc s = Controller.Returned) ∧
  (Controller.pc s = Controller.Returned → Controller.stopCh s = true) ∧
  (∀ i, Controller.workers s !! i = Some Controller.Exited →
        Controller.pc s = Controller.Returned).

(** ** Inputs of the further properties *)

Definition task_delete : DeploymentTask :=
  mkTask "tenant-test" "agent-test" "" "DELETE".

(** A hundred tasks are submitted and none is taken. *)
Definition full_channel : list Orchestrator.label :=
  replicate 100 (Orchestrator.SubmitTask Samples.task_create).

(** The agent [default/a1] has no pod yet. *)
Definition unreconciled : Cluster :=
  mkCluster (<[("default", "a1") := Samples.agent_v1]> ∅) ∅ ∅ [] [].

(** Five failed attempts at [default/a1], and the state they lead to with
    the last retry timer still waiting. *)
Definition five_failures : list Controller.label := take 24 Samples.six_attempts.

Definition failing_start : Controller.State :=
  Controller.initial Samples.failing_cluster Samples.limiter.

Definition after_five_failures : Controller.State :=
  default failing_start (Controller.run Samples.controller five_failures failing_start).

(** Every request fails seven times in a row: the six attempts that use up
    the retries of [default/a1], then a resync announces the agent again and
    the seventh attempt fails as well. *)
Definition always_failing : Cluster :=
  mkCluster ∅ ∅ ∅ (replicate 7 (Some "timeout")) [].

Definition seven_attempts : list Controller.label :=
  Samples.six_attempts ++
  [Controller.Notify (Controller.Updated Samples.agent_v1 Samples.agent_v1)] ++
  Samples.one_attempt.

Definition failed_attempt (ev : Controller.event) : bool :=
  match ev with
  | Controller.ReconcileCalled _ _ (Some _) => true
  | _ => false
  end.

(** A store with an agent, its pod and the deployments of two agents. *)
Definition task_other : DeploymentTask :=
  mkTask "tenant-test" "agent-other" "other-image:v1" "CREATE".

Definition populated : Cluster :=
  (DeployAgent (mkAdapter "default") task_other
     (DeployAgent (mkAdapter "default") Samples.task_create Samples.drifted).2).2.

End Further.

(** * Properties *)

(** ** The API server *)

Section api_server.
Import K8s.

Lemma serve_unfaulted {A} (r : request) (real : Cluster → (error + A) * Cluster) c :
  next_fault c = None →
  serve r real c =
    real (mkCluster (agents c) (pods c) (deployments c) (tail (faults c))
            (requests c ++ [r])).
Proof.
  unfold next_fault, serve. destruct (faults c) as [|[msg|] fs]; simpl; congruence.
Qed.

Lemma serve_faulted {A} (r : request) (real : Cluster → (error + A) * Cluster) c msg :
  next_fault c = Some msg →
  serve r real c =
    (inl (ErrTransient msg),
     mkCluster (agents c) (pods c) (deployments c) (tail (faults c))
       (requests c ++ [r])).
Proof.
  unfold next_fault, serve. destruct (faults c) as [|[m|] fs]; simpl; congruence.
Qed.

(** A read leaves the three stores alone whatever it returns. *)
Lemma deployments_Get_frame ns name c res c' :
  deployments_Get ns name c = (res, c') →
  agents c' = agents c ∧ pods c' = pods c ∧ deployments c' = deployments c ∧
  requests c' = requests c ++ [GetDeployment ns name] ∧
  (∀ d, res = inr d → deployments c !! (ns, name) = Some d).
Proof.
  unfold deployments_Get, serve.
  destruct (faults c) as [|[msg|] fs]; simpl;
    repeat case_match; intros; simplify_eq; simpl; repeat split; try done;
    intros; simplify_eq; done.
Qed.

End api_server.

(** ** [KubernetesAdapter.UpdateAgent] *)

Section update_agent.
Import K8s Container.

Lemma set_first_image_spec img d d' :
  set_first_image img d = Some d' →
  dep_ObjectMeta d' = dep_ObjectMeta d ∧
  Replicas (dep_Spec d') = Replicas (dep_Spec d) ∧
  Selector (dep_Spec d') = Selector (dep_Spec d) ∧
  tmpl_ObjectMeta (Template (dep_Spec d')) = tmpl_ObjectMeta (Template (dep_Spec d)) ∧
  ∃ c0 cs,
    Containers (tmpl_Spec (Template (dep_Spec d))) = c0 :: cs ∧
    Containers (tmpl_Spec (Template (dep_Spec d'))) =
      mkContainer (Name c0) img (Command c0) :: cs.
Proof.
  unfold set_first_image.
  destruct (Containers (tmpl_Spec (Template (dep_Spec d)))) as [|c0 cs] eqn:Hcs;
    [done|].
  intros [= <-]. simpl. repeat split; eauto.
Qed.

(** C10: when the fetch returns a deployment whose pod template has at
    least one container, [UpdateAgent] does not panic and submits exactly
    one update after the fetch; the deployment it submits differs from the
    fetched one only in the image of the first container, which is the
    task's image: metadata, replicas, selector, template metadata, the first
    container's name and command, and every further container are those of
    the fetched deployment. *)
Theorem UpdateAgent_touches_only_first_image
    (k : KubernetesAdapter) (task : DeploymentTask) (c c1 : Cluster)
    (d : Deployment) :
  deployments_Get (namespace k) (AgentID task) c = (inr d, c1) →
  0 < length (Containers (tmpl_Spec (Template (dep_Spec d)))) →
  ∃ d',
    (∀ msg, (UpdateAgent k task c).1 ≠ Panic msg) ∧
    requests (UpdateAgent k task c).2 =
      requests c ++ [GetDeployment (namespace k) (AgentID task);
                     UpdateDeployment (namespace k) d'] ∧
    dep_ObjectMeta d' = dep_ObjectMeta d ∧
    Replicas (dep_Spec d') = Replicas (dep_Spec d) ∧
    Selector (dep_Spec d') = Selector (dep_Spec d) ∧
    tmpl_ObjectMeta (Template (dep_Spec d')) = tmpl_ObjectMeta (Template (dep_Spec d)) ∧
    length (Containers (tmpl_Spec (Template (dep_Spec d')))) =
      length (Containers (tmpl_Spec (Template (dep_Spec d)))) ∧
    (∃ c0 c0',
        Containers (tmpl_Spec (Template (dep_Spec d))) !! 0 = Some c0 ∧
        Containers (tmpl_Spec (Template (dep_Spec d'))) !! 0 = Some c0' ∧
        Image c0' = ContainerImg task ∧ Name c0' = Name c0 ∧
        Command c0' = Command c0) ∧
    (∀ i, 0 < i →
        Containers (tmpl_Spec (Template (dep_Spec d'))) !! i =
        Containers (tmpl_Spec (Template (dep_Spec d))) !! i).
Proof.
  intros Hget Hlen.
  destruct (deployments_Get_frame _ _ _ _ _ Hget) as (_ & _ & _ & Hreq & _).
  destruct (set_first_image (ContainerImg task) d) as [d'|] eqn:Hset; last first.
  { unfold set_first_image in Hset.
    destruct (Containers (tmpl_Spec (Template (dep_Spec d)))); simpl in *; [lia|done]. }
  destruct (set_first_image_spec _ _ _ Hset) as (Hm & Hr & Hs & Ht & c0 & cs & Hd & Hd').
  exists d'. unfold UpdateAgent. rewrite Hget, Hset.
  assert (Hupd : requests (deployments_Update (namespace k) d' c1).2 =
                 requests c1 ++ [UpdateDeployment (namespace k) d']).
  { unfold deployments_Update, serve.
    destruct (faults c1) as [|[msg|] fs]; simpl; repeat case_match; done. }
  destruct (deployments_Update (namespace k) d' c1) as [[err|d''] c2] eqn:Hup;
    simpl in *; (split; [done|]);
    (split; [rewrite Hupd, Hreq, <- app_assoc; done|]);
    rewrite Hd, Hd'; simpl; repeat split; try done;
    try (eexists _, _; repeat split; done);
    intros [|i] ?; [lia|done | lia | done].
Qed.

(** The precondition of C10 is needed: an empty container list makes the
    unconditional index panic. *)
Lemma UpdateAgent_panics_without_containers
    (k : KubernetesAdapter) (task : DeploymentTask) (c c1 : Cluster) (d : Deployment) :
  deployments_Get (namespace k) (AgentID task) c = (inr d, c1) →
  Containers (tmpl_Spec (Template (dep_Spec d))) = [] →
  (UpdateAgent k task c).1 = Panic "runtime error: index out of range [0] with length 0".
Proof.
  intros Hget Hnil. unfold UpdateAgent, set_first_image. by rewrite Hget, Hnil.
Qed.

End update_agent.

(** ** [K8sAdapter.Reconcile] and [Controller.reconcile] *)

Section reconcile.
Import K8s Controller.

Lemma split_slash_no_slash s : no_slash s = true → split_slash s = [s].
Proof.
  induction s as [|ch rest IH]; simpl; [done|].
  intros [Hch Hrest]%andb_prop. apply negb_true_iff in Hch.
  rewrite Hch, IH by done. done.
Qed.

Lemma split_slash_append ns name :
  no_slash ns = true →
  split_slash (ns +:+ String "/" name) = ns :: split_slash name.
Proof.
  induction ns as [|ch rest IH]; simpl; [done|].
  intros [Hch Hrest]%andb_prop. apply negb_true_iff in Hch.
  rewrite Hch, IH by done. done.
Qed.

(** The key made from a valid object splits back into its namespace and
    name. *)
Lemma SplitMetaNamespaceKey_of_key (a : Agent) :
  valid_agent a = true →
  SplitMetaNamespaceKey (MetaNamespaceKeyFunc a) = inr (agent_Namespace a, agent_Name a).
Proof.
  unfold valid_agent, SplitMetaNamespaceKey, MetaNamespaceKeyFunc.
  intros [Hns Hname]%andb_prop.
  destruct (String.eqb_spec (agent_Namespace a) "") as [->|Hne].
  - by rewrite split_slash_no_slash.
  - change (agent_Namespace a +:+ "/" +:+ agent_Name a)
      with (agent_Namespace a +:+ String "/" (agent_Name a)).
    rewrite split_slash_append, split_slash_no_slash by done. done.
Qed.

(** An existing pod: one read, no change, whatever the pod looks like. *)
Lemma Reconcile_pod_present (a : K8sAdapter) (agent : Agent) (cl : Cluster) (p : Pod) :
  next_fault cl = None →
  pods cl !! pod_key (namespace a) (agent_Name agent) = Some p →
  K8sAdapter_Reconcile a agent cl =
    (None, mkCluster (agents cl) (pods cl) (deployments cl) (tail (faults cl))
             (requests cl ++ [GetPod (namespace a) (agent_Name agent +:+ "-pod")])).
Proof.
  intros Hf Hp. unfold K8sAdapter_Reconcile, pods_Get.
  rewrite serve_unfaulted by done. simpl. unfold pod_key in Hp. by rewrite Hp.
Qed.

(** An absent pod: one read, then the creation of the fixed pod. *)
Lemma Reconcile_pod_absent (a : K8sAdapter) (agent : Agent) (cl : Cluster) :
  faults cl = [] →
  pods cl !! pod_key (namespace a) (agent_Name agent) = None →
  let podName := agent_Name agent +:+ "-pod" in
  K8sAdapter_Reconcile a agent cl =
    (None, mkCluster (agents cl)
             (<[(namespace a, podName) := agent_pod a podName]> (pods cl))
             (deployments cl) []
             (requests cl ++ [GetPod (namespace a) podName;
                              CreatePod (namespace a) (agent_pod a podName)])).
Proof.
  intros Hf Hp. unfold K8sAdapter_Reconcile, pods_Get, pods_Create, serve.
  unfold pod_key in Hp. rewrite Hf. simpl. rewrite Hp. simpl. rewrite Hp.
  unfold set_pods. simpl. by rewrite <- app_assoc.
Qed.

(** An absent agent: one read of the agent, [nil], and nothing else, for
    any reconciler. *)
Lemma reconcile_agent_absent (c : Controller) (key ns name : string) (cl : Cluster) :
  SplitMetaNamespaceKey key = inr (ns, name) →
  next_fault cl = None →
  agents cl !! (ns, name) = None →
  reconcile c key cl =
    (None, mkCluster (agents cl) (pods cl) (deployments cl) (tail (faults cl))
             (requests cl ++ [GetAgent ns name])).
Proof.
  intros Hk Hf Ha. unfold reconcile, agents_Get. rewrite Hk.
  rewrite serve_unfaulted by done. simpl. by rewrite Ha.
Qed.

Lemma reconcile_agent_present (c : Controller) (key ns name : string) (cl : Cluster)
    (agent : Agent) :
  SplitMetaNamespaceKey key = inr (ns, name) →
  next_fault cl = None →
  agents cl !! (ns, name) = Some agent →
  reconcile c key cl =
    @Reconcile (reconciler c) agent
      (mkCluster (agents cl) (pods cl) (deployments cl) (tail (faults cl))
         (requests cl ++ [GetAgent ns name])).
Proof.
  intros Hk Hf Ha. unfold reconcile, agents_Get. rewrite Hk.
  rewrite serve_unfaulted by done. simpl. by rewrite Ha.
Qed.

(** What one [reconcile] of the controller built by [NewController] can do
    to the store when no request fails: agents and deployments are left
    alone, a pod that existed is left alone, and the only pod that can
    appear is the fixed pod of the agent the key names. *)
Lemma reconcile_effect (ns key : string) (cl cl' : Cluster) (err : option error) :
  faults cl = [] →
  reconcile (NewController ns) key cl = (err, cl') →
  faults cl' = [] ∧ agents cl' = agents cl ∧ deployments cl' = deployments cl ∧
  (∀ k, pods cl' !! k = pods cl !! k ∨
        (pods cl !! k = None ∧ k.1 = ns ∧
         pods cl' !! k = Some (agent_pod (mkK8sAdapter ns) k.2))) ∧
  (∀ nsA name agent,
      SplitMetaNamespaceKey key = inr (nsA, name) →
      agents cl !! (nsA, name) = Some agent →
      is_Some (pods cl' !! pod_key ns (agent_Name agent))).
Proof.
  intros Hf Hrec.
  assert (Hnf : next_fault cl = None) by (unfold next_fault; by rewrite Hf).
  destruct (SplitMetaNamespaceKey key) as [e|[nsA name]] eqn:Hk.
  { unfold reconcile in Hrec. rewrite Hk in Hrec. simplify_eq.
    repeat split; try done; first by left. }
  destruct (agents cl !! (nsA, name)) as [agent|] eqn:Ha.
  - rewrite (reconcile_agent_present _ _ nsA name _ agent) in Hrec by done.
    simpl in Hrec. rewrite Hf in Hrec. simpl in Hrec.
    set (cl1 := mkCluster _ _ _ _ _) in Hrec.
    destruct (pods cl !! pod_key ns (agent_Name agent)) as [p|] eqn:Hp.
    + rewrite (Reconcile_pod_present _ _ cl1 p) in Hrec by done.
      simplify_eq. simpl. repeat split; try done; [by left|].
      intros ??? [= <- <-] Ha'. rewrite Ha in Ha'. simplify_eq. by rewrite Hp.
    + rewrite (Reconcile_pod_absent _ _ cl1) in Hrec by done.
      simplify_eq. simpl. repeat split; try done.
      * intros k. destruct (decide (k = (ns, agent_Name agent +:+ "-pod"))) as [->|Hne].
        -- right. rewrite lookup_insert_eq. done.
        -- left. by rewrite lookup_insert_ne.
      * intros ??? [= <- <-] Ha'. rewrite Ha in Ha'. simplify_eq.
        unfold pod_key. rewrite lookup_insert_eq. eauto.
  - rewrite (reconcile_agent_absent _ _ nsA name) in Hrec by done.
    simplify_eq. simpl. rewrite Hf. repeat split; try done; [by left|].
    intros ??? [= <- <-] ?. congruence.
Qed.

End reconcile.

(** ** Deleted agents and drifted pods *)

Section deleted_and_drifted.
Import K8s Controller Samples.

(** C4, as the code has it: for every key whose agent is absent from the
    Desired-State Source, [reconcile] returns [nil] after the one read of
    the agent and issues no other request: pods, deployments and agents are
    what they were, so a workload that exists is left in place. *)
Theorem reconcile_deleted_agent_keeps_workload
    (c : Controller) (key ns name : string) (cl : Cluster) :
  SplitMetaNamespaceKey key = inr (ns, name) →
  next_fault cl = None →
  agents cl !! (ns, name) = None →
  (reconcile c key cl).1 = None ∧
  pods (reconcile c key cl).2 = pods cl ∧
  deployments (reconcile c key cl).2 = deployments cl ∧
  agents (reconcile c key cl).2 = agents cl ∧
  requests (reconcile c key cl).2 = requests cl ++ [GetAgent ns name].
Proof.
  intros Hk Hf Ha. by rewrite (reconcile_agent_absent c key ns name cl).
Qed.

(** C4 fails as stated: the agent [default/a1] is absent and its pod
    exists; [reconcile] returns [nil], the only request is the read of the
    agent, and the pod is still there. *)
Lemma reconcile_leaves_orphan_pod :
  agents orphaned !! ("default", "a1") = None ∧
  pods orphaned !! pod_key "default" "a1" = Some pod_v1 ∧
  (reconcile (NewController "default") "default/a1" orphaned).1 = None ∧
  requests (reconcile (NewController "default") "default/a1" orphaned).2 =
    [GetAgent "default" "a1"] ∧
  pods (reconcile (NewController "default") "default/a1" orphaned).2
    !! pod_key "default" "a1" = Some pod_v1.
Proof. vm_compute. done. Qed.

(** C1 fails as stated: the agent [default/a1] asks for image [v2] and its
    pod runs [v1]; [reconcile] returns [nil] after reading the agent and
    the pod, submits no update, and the pod still runs [v1]. *)
Lemma reconcile_ignores_image_drift :
  agents drifted !! ("default", "a1") = Some agent_v2 ∧
  agent_Image agent_v2 = "v2" ∧
  (Image <$> Containers (pod_Spec pod_v1)) = ["v1"] ∧
  pods drifted !! pod_key "default" "a1" = Some pod_v1 ∧
  (reconcile (NewController "default") "default/a1" drifted).1 = None ∧
  requests (reconcile (NewController "default") "default/a1" drifted).2 =
    [GetAgent "default" "a1"; GetPod "default" "a1-pod"] ∧
  pods (reconcile (NewController "default") "default/a1" drifted).2
    !! pod_key "default" "a1" = Some pod_v1.
Proof. vm_compute. done. Qed.

End deleted_and_drifted.

(** ** The work queue *)

Section work_queue.
Import WorkQueue.

Lemma Add_fields key q :
  shuttingDown q = false →
  queue (Add key q) =
    (if decide (key ∈ dirty q ∨ key ∈ processing q) then queue q
     else queue q ++ [key]) ∧
  dirty (Add key q) = {[key]} ∪ dirty q ∧
  processing (Add key q) = processing q ∧
  shuttingDown (Add key q) = false ∧
  failures (Add key q) = failures q ∧
  waiting (Add key q) = waiting q ∧
  limiter (Add key q) = limiter q.
Proof.
  intros Hs. unfold Add. rewrite Hs.
  repeat case_decide; simpl; repeat split; try done; try set_solver;
    try (exfalso; tauto).
Qed.

Lemma Add_closed key q : shuttingDown q = true → Add key q = q.
Proof. intros Hs. unfold Add. by rewrite Hs. Qed.

Lemma Add_processing key q : processing (Add key q) = processing q.
Proof. unfold Add. by repeat case_match. Qed.

Lemma Add_shuttingDown key q : shuttingDown (Add key q) = shuttingDown q.
Proof. unfold Add. by repeat case_match. Qed.

Lemma Add_failures key q : failures (Add key q) = failures q.
Proof. unfold Add. by repeat case_match. Qed.

Lemma Add_dirty_mono key k q : k ∈ dirty q → k ∈ dirty (Add key q).
Proof. unfold Add. repeat case_match; simpl; set_solver. Qed.

Lemma Add_wf key q : Controller.queue_wf q → Controller.queue_wf (Add key q).
Proof.
  intros [Hnd Hq]. destruct (shuttingDown q) eqn:Hs.
  { by rewrite Add_closed. }
  destruct (Add_fields key q Hs) as (Hqu & Hd & Hp & _).
  unfold Controller.queue_wf. rewrite Hqu, Hd, Hp. case_decide as Hin.
  - split; [done|]. intros k Hk. destruct (Hq k Hk). set_solver.
  - split.
    + apply NoDup_app. split_and!; [done| |apply NoDup_singleton].
      intros k Hk Hk'%list_elem_of_singleton. subst k.
      destruct (Hq key Hk). tauto.
    + intros k [Hk|Hk%list_elem_of_singleton]%elem_of_app.
      * destruct (Hq k Hk). set_solver.
      * subst k. split; [set_solver|tauto].
Qed.

(** What the tail of [processNextItem] does to the pending keys, the dirty
    marks and the processing set, whatever [reconcile] returned. *)
Lemma finish_fields (c : Controller.Controller) key err q :
  queue (Controller.finish c key err q).1 =
    (if decide (key ∈ dirty q) then queue q ++ [key] else queue q) ∧
  dirty (Controller.finish c key err q).1 = dirty q ∧
  processing (Controller.finish c key err q).1 = processing q ∖ {[key]} ∧
  shuttingDown (Controller.finish c key err q).1 = shuttingDown q ∧
  limiter (Controller.finish c key err q).1 = limiter q.
Proof.
  unfold Controller.finish, AddRateLimited, When, AddAfter, Forget, Done.
  destruct err; repeat case_match; simpl in *; simplify_eq; simpl; done.
Qed.

Lemma finish_wf (c : Controller.Controller) key err q :
  Controller.queue_wf q → key ∈ processing q → Controller.queue_wf (Controller.finish c key err q).1.
Proof.
  intros [Hnd Hq] Hkey.
  destruct (finish_fields c key err q) as (Hqu & Hd & Hp & _).
  unfold Controller.queue_wf. rewrite Hqu, Hd, Hp.
  assert (key ∉ queue q) as Hnot by (intros Hk; destruct (Hq key Hk); tauto).
  case_decide.
  - split.
    + apply NoDup_app. split_and!; [done| |apply NoDup_singleton].
      intros k Hk Hk'%list_elem_of_singleton. by subst k.
    + intros k [Hk|Hk%list_elem_of_singleton]%elem_of_app.
      * destruct (Hq k Hk). set_solver.
      * subst k. set_solver.
  - split; [done|]. intros k Hk. destruct (Hq k Hk). set_solver.
Qed.

Lemma Fire_fields idx q q' :
  Fire idx q = Some q' →
  ∃ key d, waiting q !! idx = Some (key, d) ∧
    q' = Add key (mkQueue (queue q) (dirty q) (processing q) (shuttingDown q)
                    (failures q) (delete idx (waiting q)) (limiter q)).
Proof.
  unfold Fire. destruct (waiting q !! idx) as [[key d]|]; [|done].
  intros [= <-]. eauto.
Qed.

Lemma Get_Item q key q' :
  Get q = Item key q' →
  ∃ rest, queue q = key :: rest ∧
    q' = mkQueue rest (dirty q ∖ {[key]}) ({[key]} ∪ processing q)
           (shuttingDown q) (failures q) (waiting q) (limiter q).
Proof.
  unfold Get. destruct (queue q) as [|k rest]; [by case_match|].
  intros [= <- <-]. eauto.
Qed.

End work_queue.

(** ** Invariants of the controller *)

(** Every case of [Controller.step] that produces a state. *)
Ltac step_cases H :=
  match type of H with
  | Controller.step _ ?l _ = Some _ => destruct l; simpl in H
  end;
  repeat case_match; simplify_eq; simpl in *.

Section controller_invariants.
Import K8s Controller.

Context (c : Controller).

Lemma run_invariant (P : State → Prop) :
  (∀ l s s', P s → step c l s = Some s' → P s') →
  ∀ ls s s', P s → run c ls s = Some s' → P s'.
Proof.
  intros Hstep ls. induction ls as [|l ls IH]; simpl; intros s s' HP Hrun.
  - by simplify_eq.
  - destruct (step c l s) as [s1|] eqn:Hs; [|done]. eauto.
Qed.

Lemma exclusive_insert_idle ws i w :
  exclusive ws → holding w = None → exclusive (<[i := w]> ws).
Proof.
  intros Hex Hw a b wa wb key Ha Hb Hka Hkb.
  apply list_lookup_insert_Some in Ha as [(-> & <- & _)|[Hne Ha]]; [congruence|].
  apply list_lookup_insert_Some in Hb as [(-> & <- & _)|[Hne' Hb]]; [congruence|].
  eauto.
Qed.

Lemma exclusive_insert_same ws i w w' :
  exclusive ws → ws !! i = Some w → holding w' = holding w →
  exclusive (<[i := w']> ws).
Proof.
  intros Hex Hi Hw a b wa wb key Ha Hb Hka Hkb.
  apply list_lookup_insert_Some in Ha as [(-> & <- & _)|[Hne Ha]];
    apply list_lookup_insert_Some in Hb as [(-> & <- & _)|[Hne' Hb]];
    try done.
  - rewrite Hw in Hka. symmetry. eapply (Hex b a); eauto.
  - rewrite Hw in Hkb. eapply (Hex a b); eauto.
  - eauto.
Qed.

Lemma exclusive_insert_fresh ws i w key :
  exclusive ws → holding w = Some key →
  (∀ j wj, ws !! j = Some wj → holding wj ≠ Some key) →
  exclusive (<[i := w]> ws).
Proof.
  intros Hex Hw Hfresh a b wa wb k Ha Hb Hka Hkb.
  apply list_lookup_insert_Some in Ha as [(-> & <- & _)|[Hne Ha]];
    apply list_lookup_insert_Some in Hb as [(-> & <- & _)|[Hne' Hb]];
    try done.
  - exfalso. eapply Hfresh; [exact Hb|]. congruence.
  - exfalso. eapply Hfresh; [exact Ha|]. congruence.
  - eauto.
Qed.

Lemma exclusive_replicate_idle n : exclusive (replicate n Idle).
Proof.
  intros a b wa wb key [-> _]%lookup_replicate_1 _ Hka. done.
Qed.

Lemma serialised_initial cl l : serialised (initial cl l).
Proof.
  unfold serialised, queue_wf, initial, exclusive. simpl. split_and!.
  - apply NoDup_nil_2.
  - intros key Hk. by apply elem_of_nil in Hk.
  - intros ????? Hi. by rewrite lookup_nil in Hi.
  - intros ??? Hi. by rewrite lookup_nil in Hi.
Qed.

Lemma on_notification_Add n q :
  on_notification n q = WorkQueue.Add (notification_key n) q.
Proof. by destruct n. Qed.

Lemma serialised_step l s s' :
  serialised s → step c l s = Some s' → serialised s'.
Proof.
  intros (Hwf & Hex & Hproc) Hstep. unfold serialised.
  step_cases Hstep; try done.
  - (* Notify *)
    rewrite on_notification_Add, Add_processing. split_and!; [|done..].
    by apply Add_wf.
  - (* SyncReturnedTrue *)
    split_and!; [done|apply exclusive_replicate_idle|].
    by intros i w key [-> _]%lookup_replicate_1.
  - (* WorkerGet, an item *)
    match goal with H : WorkQueue.Get _ = _ |- _ =>
      apply Get_Item in H as (rest & Hq & ->) end.
    destruct Hwf as [Hnd Hin]. rewrite Hq in Hnd, Hin.
    apply NoDup_cons in Hnd as [Hnot Hnd].
    assert (key ∉ WorkQueue.processing (queue s)) as Hfree
      by (apply (Hin key); left).
    split_and!.
    + split; [done|]. simpl. intros k Hk.
      destruct (Hin k) as [? ?]; [by right|].
      assert (k ≠ key) by (intros ->; done). set_solver.
    + eapply exclusive_insert_fresh; [done..|].
      intros j wj Hj Hkey. apply Hfree. eauto.
    + simpl. intros i w k [(-> & <- & _)|[Hne Hi]]%list_lookup_insert_Some Hk.
      * simpl in Hk. set_solver.
      * specialize (Hproc _ _ _ Hi Hk). set_solver.
  - (* WorkerGet, closed *)
    split_and!; [done|by apply exclusive_insert_idle|].
    intros i w k [(-> & <- & _)|[Hne Hi]]%list_lookup_insert_Some Hk; [done|eauto].
  - (* WorkerReconcile *)
    split_and!; [done|by eapply exclusive_insert_same|].
    intros i w k [(-> & <- & _)|[Hne Hi]]%list_lookup_insert_Some Hk; [|eauto].
    simpl in Hk. simplify_eq. eapply Hproc; [done..|]. done.
  - (* WorkerFinish *)
    match goal with H : finish _ ?key ?err ?q = (?t, _) |- _ =>
      assert (t = (finish c key err q).1) as -> by (by rewrite H);
      pose proof (finish_fields c key err q) as (_ & _ & Hp & _);
      assert (key ∈ WorkQueue.processing q) as Hkey by (eapply Hproc; done)
    end.
    split_and!; [by apply finish_wf|by apply exclusive_insert_idle|].
    intros i w k [(-> & <- & _)|[Hne Hi]]%list_lookup_insert_Some Hk; [done|].
    rewrite Hp. specialize (Hproc _ _ _ Hi Hk).
    assert (k ≠ key); [|set_solver].
    intros ->. apply Hne. eapply Hex; eauto.
  - (* TimerFired *)
    match goal with H : WorkQueue.Fire _ _ = _ |- _ =>
      apply Fire_fields in H as (key & d & _ & ->) end.
    rewrite Add_processing. simpl. split_and!; [|done..].
    apply Add_wf. done.
Qed.

Lemma serialised_reachable cl l ls s :
  run c ls (initial cl l) = Some s → serialised s.
Proof.
  eapply run_invariant; [apply serialised_step|apply serialised_initial].
Qed.

Lemma exclusive_tail w ws : exclusive (w :: ws) → exclusive ws.
Proof.
  intros Hex i j wi wj key Hi Hj Hki Hkj.
  assert (S i = S j) by (eapply (Hex (S i) (S j)); eauto). lia.
Qed.

Lemma exclusive_NoDup ws : exclusive ws → NoDup (in_flight ws).
Proof.
  unfold in_flight. induction ws as [|w ws IH]; intros Hex; simpl.
  - apply NoDup_nil_2.
  - specialize (IH (exclusive_tail _ _ Hex)).
    destruct (holding w) as [key|] eqn:Hw; [|done].
    apply NoDup_cons. split; [|done].
    intros (w' & Hin & Hw')%list_elem_of_omap.
    apply list_elem_of_lookup in Hin as [j Hj].
    assert (0 = S j) by (eapply (Hex 0 (S j)); eauto). lia.
Qed.

Lemma in_flight_length ws : (length (in_flight ws) ≤ length ws)%nat.
Proof.
  unfold in_flight, omap. induction ws as [|w ws IH]; simpl; [done|].
  destruct (holding w); simpl; lia.
Qed.

Lemma startup_step cl0 l s s' :
  startup_ok cl0 s → step c l s = Some s' → startup_ok cl0 s'.
Proof.
  intros [(Hw & Hreq & Hpc)|(Hpc & Hsy & n & rest & Htr & Hlen & Hrest)] Hstep.
  - (* before the sync *)
    step_cases Hstep;
      try (rewrite Hw, lookup_nil in *; done);
      try (left; split_and!; done).
    + (* RunCalled *)
      left. split_and!; [done..|]. right; left.
      destruct Hpc as [[_ ->]|[[[? ?] _]|[? _]]]; [eauto|congruence..].
    + (* SyncReturnedTrue *)
      right. split_and!; [by left|done|].
      destruct Hpc as [[? _]|[[_ ->]|[? _]]]; [congruence| |congruence].
      simpl. eexists _, []. split_and!; [done|by rewrite length_replicate|done].
    + (* SyncReturnedFalse *)
      left. split_and!; [done..|]. right; right.
      destruct Hpc as [[? _]|[[_ ->]|[? _]]]; [congruence|done|congruence].
    + (* StopObserved *)
      destruct Hpc as [[? _]|[[[? ?] _]|[? _]]]; congruence.
  - (* after the sync *)
    assert (∀ evs, Forall (λ ev, worker_event ev ∨ ev = Stopped) evs →
              trace s ++ evs =
                InformerStarted :: CacheSynced :: WorkersStarted n :: (rest ++ evs) ∧
              Forall (λ ev, worker_event ev ∨ ev = Stopped) (rest ++ evs)) as Hgrow.
    { intros evs Hevs. rewrite Htr. split; [done|]. by apply Forall_app. }
    right. unfold started.
    step_cases Hstep; try (destruct Hpc; congruence);
      rewrite ?length_insert;
      try (split_and!; [done..|]; eexists _, _; split_and!; done).
    + (* StopObserved *)
      destruct (Hgrow [Stopped]) as [-> ?]; [repeat constructor; by right|].
      split_and!; [by right|done|]. eexists _, _; split_and!; done.
    + (* WorkerGet *)
      destruct (Hgrow [Dequeued workerID key]) as [-> ?];
        [repeat constructor; by left|].
      split_and!; [done..|]. eexists _, _; split_and!; done.
    + (* WorkerReconcile *)
      destruct (Hgrow [ReconcileCalled workerID key o]) as [-> ?];
        [repeat constructor; by left|].
      split_and!; [done..|]. eexists _, _; split_and!; done.
    + (* WorkerFinish *)
      destruct (Hgrow (Logged <$> l)) as [-> ?].
      { apply Forall_fmap, Forall_forall. intros ??. by left. }
      split_and!; [done..|]. eexists _, _; split_and!; done.
Qed.

Lemma startup_initial cl l : startup_ok cl (initial cl l).
Proof. left. split_and!; [done..|]. by left. Qed.

Lemma startup_reachable cl l ls s :
  run c ls (initial cl l) = Some s → startup_ok cl s.
Proof.
  eapply run_invariant; [apply startup_step|apply startup_initial].
Qed.

Lemma iter_Add_in_flight key q n :
  WorkQueue.shuttingDown q = false →
  key ∈ WorkQueue.processing q →
  WorkQueue.queue (Nat.iter (S n) (WorkQueue.Add key) q) = WorkQueue.queue q ∧
  WorkQueue.dirty (Nat.iter (S n) (WorkQueue.Add key) q) = {[key]} ∪ WorkQueue.dirty q ∧
  WorkQueue.processing (Nat.iter (S n) (WorkQueue.Add key) q) = WorkQueue.processing q ∧
  WorkQueue.shuttingDown (Nat.iter (S n) (WorkQueue.Add key) q) = false.
Proof.
  intros Hs Hp. induction n as [|n (IHq & IHd & IHp & IHs)].
  - simpl. destruct (Add_fields key q Hs) as (Hq & Hd & Hp' & Hs' & _).
    rewrite Hq, Hd, Hp', Hs'. rewrite decide_True by (by right). done.
  - change (Nat.iter (S (S n)) (WorkQueue.Add key) q)
      with (WorkQueue.Add key (Nat.iter (S n) (WorkQueue.Add key) q)).
    destruct (Add_fields key _ IHs) as (Hq & Hd & Hp' & Hs' & _).
    rewrite Hq, Hd, Hp', Hs', IHq, IHd, IHp.
    rewrite decide_True by (left; set_solver). split_and!; [done| |done..].
    set_solver.
Qed.

End controller_invariants.

(** ** Mutual exclusion, coalescing and startup order *)

Section controller_properties.
Import K8s Controller Samples.

(** C2: in every state the controller can reach, no key is held by two
    workers, so at most one [reconcile] (and with it at most one call of
    the adapter) is in progress for a key; the number of reconciles in
    progress never exceeds the worker count given to [Run]; and reconciles
    of distinct keys do run side by side: with three workers, three keys
    can be in flight at once. *)
Theorem per_key_mutual_exclusion
    (c : Controller) (cl : Cluster) (l : WorkQueue.RateLimiter)
    (ls : list label) (s : State) :
  run c ls (initial cl l) = Some s →
  exclusive (workers s) ∧
  NoDup (in_flight (workers s)) ∧
  (∀ n, WorkersStarted n ∈ trace s → (length (in_flight (workers s)) ≤ n)%nat) ∧
  (∃ s3, run c three_at_work (initial cl l) = Some s3 ∧
         in_flight (workers s3) = ["default/a1"; "default/a2"; "default/a3"]).
Proof.
  intros Hrun.
  destruct (serialised_reachable c _ _ _ _ Hrun) as (_ & Hex & _).
  split_and!; [done|by apply exclusive_NoDup| |].
  - intros n Hn.
    destruct (startup_reachable c _ _ _ _ Hrun)
      as [(_ & _ & Hpc)|(_ & _ & n0 & rest & Htr & Hlen & Hrest)].
    + exfalso. destruct Hpc as [[_ Htr]|[[_ Htr]|[_ Htr]]];
        rewrite Htr in Hn; set_solver.
    + rewrite Htr in Hn.
      assert (n = n0) as ->.
      { apply elem_of_cons in Hn as [?|Hn]; [done|].
        apply elem_of_cons in Hn as [?|Hn]; [done|].
        apply elem_of_cons in Hn as [?|Hn]; [congruence|].
        rewrite Forall_forall in Hrest. destruct (Hrest _ Hn) as [[]|?]; done. }
      rewrite <- Hlen. apply in_flight_length.
  - eexists. split; [vm_compute; reflexivity|]. vm_compute. reflexivity.
Qed.

(** C3: in every state the controller can reach, no key is pending twice;
    a key that a worker holds is not pending, any number of notifications
    for it while it is held leaves the pending keys as they are, and when
    the worker finishes (whatever [reconcile] returned) the key is pending
    exactly once, at the end of the queue; a run that is dequeued and
    finished with no notification in between leaves the key neither pending
    nor dirty, so there is no second re-run. *)
Theorem enqueue_coalesces
    (c : Controller) (cl : Cluster) (l : WorkQueue.RateLimiter)
    (ls : list label) (s : State) :
  run c ls (initial cl l) = Some s →
  NoDup (WorkQueue.queue (queue s)) ∧
  (∀ i w key,
      workers s !! i = Some w → holding w = Some key →
      (key ∉ WorkQueue.queue (queue s)) ∧
      ∀ n err,
        WorkQueue.shuttingDown (queue s) = false →
        let q1 := Nat.iter (S n) (WorkQueue.Add key) (queue s) in
        WorkQueue.queue q1 = WorkQueue.queue (queue s) ∧
        WorkQueue.queue (finish c key err q1).1 = (WorkQueue.queue (queue s) ++ [key]) ∧
        key ∉ WorkQueue.processing (finish c key err q1).1) ∧
  (∀ key q q' err,
      queue_wf q → WorkQueue.Get q = WorkQueue.Item key q' →
      (key ∉ WorkQueue.queue (finish c key err q').1) ∧
      (key ∉ WorkQueue.dirty (finish c key err q').1) ∧
      key ∉ WorkQueue.processing (finish c key err q').1).
Proof.
  intros Hrun.
  destruct (serialised_reachable c _ _ _ _ Hrun) as ((Hnd & Hin) & Hex & Hproc).
  split_and!; [done| |].
  - intros i w key Hi Hw. specialize (Hproc _ _ _ Hi Hw).
    assert (key ∉ WorkQueue.queue (queue s)) as Hnot
      by (intros Hk; destruct (Hin key Hk); done).
    split; [done|]. intros n err Hs q1.
    destruct (iter_Add_in_flight key (queue s) n Hs Hproc) as (Hq & Hd & Hp & _).
    destruct (finish_fields c key err q1) as (Hfq & _ & Hfp & _).
    fold q1 in Hq, Hd, Hp. rewrite Hfq, Hfp, Hq, Hd.
    rewrite decide_True by set_solver. split_and!; [done..|set_solver].
  - intros key q q' err [Hnd' Hin'] (rest & Hq & ->)%Get_Item.
    rewrite Hq in Hnd'. apply NoDup_cons in Hnd' as [Hnot _].
    match goal with |- context [finish c key err ?q0] =>
      destruct (finish_fields c key err q0) as (Hfq & Hfd & Hfp & _) end.
    rewrite Hfq, Hfd, Hfp. simpl.
    rewrite decide_False by set_solver. split_and!; [done|set_solver..].
Qed.

(** C6: in every state the controller can reach, whatever a worker did
    (a dequeue, a reconcile, a log entry) and the start of the workers come
    after [cache.WaitForCacheSync] returned true, which it does only once
    the informer has synced; as long as it has not returned true there are
    no workers, no worker event and no request of the controller to the API
    server; and once it has returned false it never returns true. *)
Theorem workers_start_after_cache_sync
    (c : Controller) (cl : Cluster) (l : WorkQueue.RateLimiter)
    (ls : list label) (s : State) :
  run c ls (initial cl l) = Some s →
  (∀ pre ev post,
      trace s = pre ++ ev :: post →
      worker_event ev ∨ (∃ n, ev = WorkersStarted n) →
      CacheSynced ∈ pre) ∧
  (CacheSynced ∈ trace s → synced s = true) ∧
  (CacheSynced ∉ trace s →
     workers s = [] ∧ requests (cluster s) = requests cl ∧
     ∀ ev, ev ∈ trace s → ¬ worker_event ev) ∧
  (CacheSyncFailed ∈ trace s → CacheSynced ∉ trace s).
Proof.
  intros Hrun.
  destruct (startup_reachable c _ _ _ _ Hrun)
    as [(Hw & Hreq & Hpc)|(_ & Hsy & n0 & rest & Htr & Hlen & Hrest)].
  - assert (trace s = [] ∨ trace s = [InformerStarted] ∨
            trace s = [InformerStarted; CacheSyncFailed]) as Htr
      by (destruct Hpc as [[_ ?]|[[_ ?]|[_ ?]]]; eauto).
    split_and!.
    + intros pre ev post Hsplit Hev. exfalso.
      assert (ev ∈ trace s) as Hin by (rewrite Hsplit; set_solver).
      destruct Htr as [Htr|[Htr|Htr]]; rewrite Htr in Hin;
        repeat (apply elem_of_cons in Hin as [->|Hin];
                [by destruct Hev as [?|[? ?]]|]);
        by apply elem_of_nil in Hin.
    + intros Hin. exfalso.
      destruct Htr as [Htr|[Htr|Htr]]; rewrite Htr in Hin; set_solver.
    + intros _. split_and!; [done..|]. intros ev Hin Hev.
      destruct Htr as [Htr|[Htr|Htr]]; rewrite Htr in Hin;
        repeat (apply elem_of_cons in Hin as [->|Hin]; [done|]);
        by apply elem_of_nil in Hin.
    + intros _ Hin.
      destruct Htr as [Htr|[Htr|Htr]]; rewrite Htr in Hin; set_solver.
  - split_and!.
    + intros pre ev post Hsplit Hev. rewrite Htr in Hsplit.
      destruct pre as [|e1 [|e2 pre]]; simpl in Hsplit; simplify_eq.
      * by destruct Hev as [?|[? ?]].
      * by destruct Hev as [?|[? ?]].
      * set_solver.
    + done.
    + intros Hnot. exfalso. apply Hnot. rewrite Htr. set_solver.
    + intros Hin. exfalso. rewrite Htr in Hin.
      apply elem_of_cons in Hin as [?|Hin]; [done|].
      apply elem_of_cons in Hin as [?|Hin]; [done|].
      apply elem_of_cons in Hin as [?|Hin]; [done|].
      rewrite Forall_forall in Hrest. destruct (Hrest _ Hin) as [[]|?]; done.
Qed.

End controller_properties.

(** ** Retries and backoff *)

Section retries.
Import WorkQueue.

Lemma delay_succ (l : RateLimiter) (n : nat) :
  (0 ≤ baseDelay l)%Z → (0 ≤ maxDelay l)%Z →
  delay l (S n) = Z.min (2 * delay l n) (maxDelay l).
Proof.
  intros Hb Hm. unfold delay.
  rewrite Nat2Z.inj_succ, Z.pow_succ_r by lia.
  assert (0 < 2 ^ Z.of_nat n)%Z by (apply Z.pow_pos_nonneg; lia). lia.
Qed.

Lemma delay_step (l : RateLimiter) (n : nat) :
  (0 ≤ baseDelay l)%Z → (delay l n ≤ delay l (S n))%Z.
Proof.
  intros Hb. unfold delay.
  rewrite Nat2Z.inj_succ, Z.pow_succ_r by lia.
  assert (0 < 2 ^ Z.of_nat n)%Z by (apply Z.pow_pos_nonneg; lia). nia.
Qed.

Lemma delay_mono (l : RateLimiter) (n m : nat) :
  (0 ≤ baseDelay l)%Z → (n ≤ m)%nat → (delay l n ≤ delay l m)%Z.
Proof.
  intros Hb Hnm. induction Hnm as [|m Hnm IH]; [lia|].
  pose proof (delay_step l m Hb). lia.
Qed.

Lemma delay_zero (l : RateLimiter) :
  (baseDelay l ≤ maxDelay l)%Z → delay l 0 = baseDelay l.
Proof. intros Hb. unfold delay. simpl. lia. Qed.

(** A failure below the ceiling. *)
Lemma finish_retry (c : Controller.Controller) key e q :
  shuttingDown q = false →
  (NumRequeues key q < Controller.maxRetries c)%nat →
  (Controller.finish c key (Some e) q).2 = [Controller.Errorf key e] ∧
  waiting (Controller.finish c key (Some e) q).1 =
    waiting q ++ [(key, delay (limiter q) (NumRequeues key q))] ∧
  NumRequeues key (Controller.finish c key (Some e) q).1 = S (NumRequeues key q).
Proof.
  intros Hs Hlt. unfold Controller.finish. rewrite decide_True by done.
  unfold AddRateLimited, When, AddAfter, Done, NumRequeues at 2 3. simpl.
  rewrite Hs. simpl. split_and!; [done..|].
  unfold NumRequeues. simpl. by rewrite lookup_insert_eq.
Qed.

(** A failure at the ceiling. *)
Lemma finish_exhausted (c : Controller.Controller) key e q :
  (Controller.maxRetries c ≤ NumRequeues key q)%nat →
  (Controller.finish c key (Some e) q).2 = [Controller.HandleError e] ∧
  waiting (Controller.finish c key (Some e) q).1 = waiting q ∧
  failures (Controller.finish c key (Some e) q).1 !! key = None ∧
  NumRequeues key (Controller.finish c key (Some e) q).1 = 0%nat.
Proof.
  intros Hge. unfold Controller.finish. rewrite decide_False by lia.
  unfold Forget, Done, NumRequeues. simpl. rewrite lookup_delete_eq. done.
Qed.

(** A success. *)
Lemma finish_success (c : Controller.Controller) key q :
  (Controller.finish c key None q).2 = [] ∧
  waiting (Controller.finish c key None q).1 = waiting q ∧
  failures (Controller.finish c key None q).1 !! key = None ∧
  NumRequeues key (Controller.finish c key None q).1 = 0%nat.
Proof.
  unfold Controller.finish, Forget, Done, NumRequeues. simpl.
  rewrite lookup_delete_eq. done.
Qed.


(** C8: the backoff is the base delay at retry count zero, doubles with
    each retry up to the maximum, and so never decreases from one retry
    count to the next. A failed reconcile below the ceiling sets a timer with
    exactly the backoff of the key's retry count and raises the count by
    one, so two consecutive failures below the ceiling wait the backoff of
    the counts [n] and [n + 1]. The count goes back to zero, and the failure
    that follows waits the base delay again, after a successful reconcile and
    also after the failure that meets the ceiling [maxRetries], where the
    worker forgets the key without any success. *)
Theorem backoff_monotone_and_reset
    (c : Controller.Controller) (key : string) (e e' : K8s.error) (q : WorkQueue.t) :
  (0 ≤ baseDelay (limiter q) ≤ maxDelay (limiter q))%Z →
  shuttingDown q = false →
  delay (limiter q) 0 = baseDelay (limiter q) ∧
  (∀ n, delay (limiter q) (S n) = Z.min (2 * delay (limiter q) n) (maxDelay (limiter q))) ∧
  (∀ n m, (n ≤ m)%nat → (delay (limiter q) n ≤ delay (limiter q) m)%Z) ∧
  ((NumRequeues key q < Controller.maxRetries c)%nat →
     waiting (Controller.finish c key (Some e) q).1 =
       waiting q ++ [(key, delay (limiter q) (NumRequeues key q))] ∧
     NumRequeues key (Controller.finish c key (Some e) q).1 = S (NumRequeues key q)) ∧
  ((S (NumRequeues key q) < Controller.maxRetries c)%nat →
     waiting (Controller.finish c key (Some e')
                (Controller.finish c key (Some e) q).1).1 =
       waiting q ++ [(key, delay (limiter q) (NumRequeues key q));
                     (key, delay (limiter q) (S (NumRequeues key q)))] ∧
     (delay (limiter q) (NumRequeues key q)
        ≤ delay (limiter q) (S (NumRequeues key q)))%Z) ∧
  ((0 < Controller.maxRetries c)%nat →
     NumRequeues key (Controller.finish c key None q).1 = 0%nat ∧
     waiting (Controller.finish c key (Some e)
                (Controller.finish c key None q).1).1 =
       waiting q ++ [(key, baseDelay (limiter q))]) ∧
  ((0 < Controller.maxRetries c)%nat →
   (Controller.maxRetries c ≤ NumRequeues key q)%nat →
     waiting (Controller.finish c key (Some e) q).1 = waiting q ∧
     NumRequeues key (Controller.finish c key (Some e) q).1 = 0%nat ∧
     waiting (Controller.finish c key (Some e')
                (Controller.finish c key (Some e) q).1).1 =
       waiting q ++ [(key, baseDelay (limiter q))]).
Proof.
  intros [Hb Hm] Hs. split_and!.
  - by apply delay_zero.
  - intros n. apply delay_succ; lia.
  - intros n m. by apply delay_mono.
  - intros Hlt. by destruct (finish_retry c key e q Hs Hlt) as (_ & Hw1 & Hn1).
  - intros Hlt.
    destruct (finish_retry c key e q Hs ltac:(lia)) as (_ & Hw1 & Hn1).
    destruct (finish_fields c key (Some e) q) as (_ & _ & _ & Hs1 & Hl1).
    rewrite Hs in Hs1.
    destruct (finish_retry c key e' _ Hs1 ltac:(lia)) as (_ & Hw2 & _).
    rewrite Hw2, Hw1, Hl1, Hn1, <- app_assoc. split; [done|]. by apply delay_step.
  - intros Hpos.
    destruct (finish_success c key q) as (_ & Hw0 & _ & Hn0).
    destruct (finish_fields c key None q) as (_ & _ & _ & Hs1 & Hl1).
    rewrite Hs in Hs1.
    destruct (finish_retry c key e _ Hs1 ltac:(lia)) as (_ & Hw2 & _).
    rewrite Hw2, Hw0, Hl1, Hn0, delay_zero by done. done.
  - intros Hpos Hge.
    destruct (finish_exhausted c key e q Hge) as (_ & Hw0 & _ & Hn0).
    destruct (finish_fields c key (Some e) q) as (_ & _ & _ & Hs1 & Hl1).
    rewrite Hs in Hs1.
    destruct (finish_retry c key e' _ Hs1 ltac:(lia)) as (_ & Hw2 & _).
    rewrite Hw2, Hw0, Hl1, Hn0, delay_zero by done. done.
Qed.

(** C8 fails as stated: with the queue of [main] (5 ms doubling, ceiling
    5), the reconcile of [default/a1] fails seven times in a row and never
    succeeds. The first five failures wait 5, 10, 20, 40 and 80 ms; the sixth
    meets the ceiling and forgets the key; a resync announces the agent
    again, and the seventh failure waits 5 ms: less than the 80 ms of the
    fifth, with no success in between. *)
Lemma consecutive_failures_restart_backoff_at_ceiling :
  ∃ s5 s6 s7,
    Controller.run Samples.controller (take 24 Further.seven_attempts)
      (Controller.initial Further.always_failing Samples.limiter) = Some s5 ∧
    waiting (Controller.queue s5) = [("default/a1", 80%Z)] ∧
    Controller.run Samples.controller (take 28 Further.seven_attempts)
      (Controller.initial Further.always_failing Samples.limiter) = Some s6 ∧
    waiting (Controller.queue s6) = [] ∧
    NumRequeues "default/a1" (Controller.queue s6) = 0%nat ∧
    Controller.run Samples.controller Further.seven_attempts
      (Controller.initial Further.always_failing Samples.limiter) = Some s7 ∧
    waiting (Controller.queue s7) = [("default/a1", 5%Z)] ∧
    length (filter Samples.is_attempt (Controller.trace s7)) = 7%nat ∧
    length (filter Further.failed_attempt (Controller.trace s7)) = 7%nat.
Proof.
  eexists _, _, _.
  split; [vm_compute; reflexivity|]. split; [vm_compute; reflexivity|].
  split; [vm_compute; reflexivity|]. split; [vm_compute; reflexivity|].
  split; [vm_compute; reflexivity|]. split; [vm_compute; reflexivity|].
  split_and!; vm_compute; reflexivity.
Qed.

(** A key whose reconcile fails every time is attempted [maxRetries + 1 = 6]
    times, with timers of 5, 10, 20, 40 and 80 ms between the attempts; the
    sixth failure goes to [HandleError] and leaves no timer, no pending key
    and no retry count behind: the queue has drained, the agent is in the
    store and its pod is not. *)
Lemma failing_key_is_dropped_after_six_attempts :
  ∃ s, Controller.run Samples.controller Samples.six_attempts
         (Controller.initial Samples.failing_cluster Samples.limiter) = Some s ∧
       length (filter Samples.is_attempt (Controller.trace s)) = 6%nat ∧
       last (Controller.trace s) =
         Some (Controller.Logged (Controller.HandleError (K8s.ErrTransient "timeout"))) ∧
       Controller.drained s ∧
       NumRequeues "default/a1" (Controller.queue s) = 0%nat ∧
       K8s.agents (Controller.cluster s) !! ("default", "a1") = Some Samples.agent_v1 ∧
       K8s.pods (Controller.cluster s) !! Controller.pod_key "default" "a1" = None ∧
       (∃ s5, Controller.run Samples.controller (take 24 Samples.six_attempts)
                (Controller.initial Samples.failing_cluster Samples.limiter) = Some s5 ∧
              waiting (Controller.queue s5) = [("default/a1", 80%Z)] ∧
              NumRequeues "default/a1" (Controller.queue s5) = 5%nat).
Proof.
  eexists. split; [vm_compute; reflexivity|].
  split_and!; try (vm_compute; reflexivity).
  - vm_compute. repeat split; reflexivity.
  - eexists. split; [vm_compute; reflexivity|]. split; vm_compute; reflexivity.
Qed.

(** Three transient failures, then success: four attempts, the timers
    between them are 5, 10 and 20 ms, the pod exists afterwards and the retry
    count is forgotten. *)
Lemma three_failures_then_success :
  ∃ s, Controller.run Samples.controller Samples.four_attempts
         (Controller.initial Samples.flaky_cluster Samples.limiter) = Some s ∧
       length (filter Samples.is_attempt (Controller.trace s)) = 4%nat ∧
       Controller.drained s ∧
       NumRequeues "default/a1" (Controller.queue s) = 0%nat ∧
       is_Some (K8s.pods (Controller.cluster s) !! Controller.pod_key "default" "a1") ∧
       (waiting ∘ Controller.queue) <$>
         Controller.run Samples.controller (take 8 Samples.four_attempts)
           (Controller.initial Samples.flaky_cluster Samples.limiter)
         = Some [("default/a1", 5%Z)] ∧
       (waiting ∘ Controller.queue) <$>
         Controller.run Samples.controller (take 12 Samples.four_attempts)
           (Controller.initial Samples.flaky_cluster Samples.limiter)
         = Some [("default/a1", 10%Z)] ∧
       (waiting ∘ Controller.queue) <$>
         Controller.run Samples.controller (take 16 Samples.four_attempts)
           (Controller.initial Samples.flaky_cluster Samples.limiter)
         = Some [("default/a1", 20%Z)].
Proof.
  eexists. split; [vm_compute; reflexivity|].
  split; [vm_compute; reflexivity|].
  split; [vm_compute; repeat split; reflexivity|].
  split; [vm_compute; reflexivity|].
  split; [vm_compute; eauto|].
  split; [vm_compute; reflexivity|].
  split; vm_compute; reflexivity.
Qed.

End retries.

(** ** Convergence *)

Section convergence.
Import K8s Controller.

Context (ns : string).

Lemma in_flight_nil_not_reconciling ws i key :
  in_flight ws = [] → ws !! i = Some (Reconciling key) → False.
Proof.
  intros Hnil Hi.
  assert (key ∈ in_flight ws) as Hin.
  { apply list_elem_of_omap. exists (Reconciling key). split; [|done].
    apply list_elem_of_lookup. eauto. }
  rewrite Hnil in Hin. by apply elem_of_nil in Hin.
Qed.

(** How the debt of [owed] moves from one state to the next. *)
Lemma owed_transfer s s' :
  (∀ nsA name a,
      agents (cluster s') !! (nsA, name) = Some a →
      pods (cluster s') !! pod_key ns name = None →
      MetaNamespaceKeyFunc a ∈ undelivered s' ∨
      (agents (cluster s) !! (nsA, name) = Some a ∧
       pods (cluster s) !! pod_key ns name = None)) →
  (∀ k, k ∈ undelivered s →
        k ∈ undelivered s' ∨ k ∈ WorkQueue.dirty (queue s')) →
  (∀ k, k ∈ WorkQueue.dirty (queue s) →
        k ∈ WorkQueue.dirty (queue s') ∨
        ∃ i, workers s' !! i = Some (Reconciling k)) →
  (∀ i k, workers s !! i = Some (Reconciling k) →
          ∃ j, workers s' !! j = Some (Reconciling k)) →
  owed ns s → owed ns s'.
Proof.
  intros Hstore Hund Hdirty Hwork Howed nsA name a Ha Hp.
  destruct (Hstore _ _ _ Ha Hp) as [?|[Ha0 Hp0]]; [by left|].
  destruct (Howed _ _ _ Ha0 Hp0) as [Hu|[Hd|[i Hi]]].
  - destruct (Hund _ Hu); eauto.
  - destruct (Hdirty _ Hd); eauto.
  - eauto.
Qed.

Lemma converging_step cl0 l s s' :
  startup_ok cl0 s →
  converging ns cl0 s → step (NewController ns) l s = Some s' →
  converging ns cl0 s'.
Proof.
  intros Hstart (Hf & Hwf & Hdep & Hpods & Howed) Hstep.
  unfold converging.
  step_cases Hstep.
  - (* SourceApply *)
    unfold set_agents, agents_wf. simpl.
    split_and!; [done| |done..|].
    + intros nsA name a' [[[= <- <-] <-]|[Hne Ha]]%lookup_insert_Some; [done|eauto].
    + intros Hs. specialize (Howed Hs). revert Howed.
      apply owed_transfer; simpl; eauto.
      intros nsA name a' [[[= <- <-] <-]|[Hne Ha]]%lookup_insert_Some Hp.
      * left. set_solver.
      * by right.
      * intros k Hk. left. set_solver.
  - (* SourceDelete *)
    unfold set_agents, agents_wf. simpl.
    split_and!; [done| |done..|].
    + intros nsA name a' [Hne Ha]%lookup_delete_Some. eauto.
    + intros Hs. specialize (Howed Hs). revert Howed.
      apply owed_transfer; simpl; eauto.
      * intros nsA name a' [Hne Ha]%lookup_delete_Some Hp. by right.
      * intros k Hk. left. set_solver.
  - (* Notify *)
    split_and!; [done..|].
    rewrite on_notification_Add, Add_shuttingDown.
    intros Hs. specialize (Howed Hs). revert Howed.
    destruct (Add_fields (notification_key n) (queue s) Hs) as (_ & Hd & _).
    apply owed_transfer; simpl; eauto.
    + intros k Hk. rewrite Hd.
      destruct (decide (k = notification_key n)); set_solver.
    + intros k Hk. left. by apply Add_dirty_mono.
  - (* InformerSynced *)
    split_and!; [done..|]. intros Hs. specialize (Howed Hs). revert Howed.
    apply owed_transfer; simpl; eauto.
  - (* CloseStopCh *)
    split_and!; [done..|]. intros Hs. specialize (Howed Hs). revert Howed.
    apply owed_transfer; simpl; eauto.
  - (* RunCalled *)
    split_and!; [done..|]. intros Hs. specialize (Howed Hs). revert Howed.
    apply owed_transfer; simpl; eauto.
  - (* SyncReturnedTrue *)
    split_and!; [done..|]. intros Hs. specialize (Howed Hs). revert Howed.
    apply owed_transfer; simpl; eauto.
    intros i k Hi. exfalso.
    destruct Hstart as [(Hw & _)|([?|?] & _)]; [|congruence..].
    by rewrite Hw, lookup_nil in Hi.
  - (* SyncReturnedFalse *)
    split_and!; done.
  - (* StopObserved *)
    split_and!; done.
  - (* WorkerGet, an item *)
    match goal with H : WorkQueue.Get _ = _ |- _ =>
      apply Get_Item in H as (rest & Hq & ->) end.
    split_and!; [done..|]. simpl. intros Hs. specialize (Howed Hs). revert Howed.
    apply owed_transfer; simpl; eauto.
    + intros k Hk. destruct (decide (k = key)) as [->|Hne].
      * right. exists workerID. apply list_lookup_insert_eq.
        by eapply lookup_lt_Some.
      * left. set_solver.
    + intros i k Hi. exists i. rewrite list_lookup_insert_ne; [done|].
      intros ->. congruence.
  - (* WorkerGet, closed *)
    split_and!; [done..|]. intros Hs. specialize (Howed Hs). revert Howed.
    apply owed_transfer; simpl; eauto.
    intros i k Hi. exists i. rewrite list_lookup_insert_ne; [done|].
    intros ->. congruence.
  - (* WorkerReconcile *)
    match goal with H : reconcile _ _ _ = _ |- _ =>
      destruct (reconcile_effect _ _ _ _ _ Hf H) as (Hf' & Hag & Hdep' & Hpods' & Hmade)
    end.
    split_and!.
    + done.
    + unfold agents_wf. by rewrite Hag.
    + congruence.
    + intros k. destruct (Hpods' k) as [Hsame|(Hnone & Hns & Hnew)].
      * rewrite Hsame. apply Hpods.
      * right. destruct (Hpods k) as [Heq|(? & ? & Habs)]; [|congruence].
        split_and!; [congruence|done..].
    + intros Hs. specialize (Howed Hs).
      intros nsA name a Ha Hp. simpl in *. rewrite Hag in Ha.
      assert (pods (cluster s) !! pod_key ns name = None) as Hp0.
      { destruct (Hpods' (pod_key ns name)) as [Hsame|(_ & _ & Hnew)]; congruence. }
      destruct (Howed _ _ _ Ha Hp0) as [Hu|[Hd|[i Hi]]]; [eauto..|].
      destruct (decide (i = workerID)) as [->|Hne].
      * exfalso. destruct (Hwf _ _ _ Ha) as (Hval & Hnsa & Hname).
        assert (key = MetaNamespaceKeyFunc a) as -> by congruence.
        destruct (Hmade nsA name a) as [p Hsome]; [|done|].
        { rewrite SplitMetaNamespaceKey_of_key by done. congruence. }
        rewrite Hname in Hsome. congruence.
      * right; right. exists i. by rewrite list_lookup_insert_ne.
  - (* WorkerFinish *)
    match goal with H : finish _ ?key ?err ?q = (?t, _) |- _ =>
      assert (t = (finish (NewController ns) key err q).1) as -> by (by rewrite H);
      pose proof (finish_fields (NewController ns) key err q) as (_ & Hd & _ & Hsd & _)
    end.
    split_and!; [done..|]. rewrite Hsd. intros Hs. specialize (Howed Hs). revert Howed.
    apply owed_transfer; simpl; eauto.
    + intros k Hk. left. by rewrite Hd.
    + intros i k Hi. exists i. rewrite list_lookup_insert_ne; [done|].
      intros ->. congruence.
  - (* TimerFired *)
    match goal with H : WorkQueue.Fire _ _ = _ |- _ =>
      apply Fire_fields in H as (key & d & _ & ->) end.
    split_and!; [done..|]. rewrite Add_shuttingDown. simpl.
    intros Hs. specialize (Howed Hs). revert Howed.
    apply owed_transfer; simpl; eauto.
    intros k Hk. left. by apply Add_dirty_mono.
Qed.

Lemma converging_initial cl0 l :
  faults cl0 = [] → agents cl0 = ∅ → converging ns cl0 (initial cl0 l).
Proof.
  intros Hf Ha. unfold converging, initial, agents_wf, owed. simpl.
  split_and!; [done| |done|by left|].
  - intros ???. by rewrite Ha, lookup_empty.
  - intros _ ???. by rewrite Ha, lookup_empty.
Qed.

Lemma converging_reachable cl0 l ls s :
  faults cl0 = [] → agents cl0 = ∅ →
  run (NewController ns) ls (initial cl0 l) = Some s →
  converging ns cl0 s.
Proof.
  intros Hf Ha Hrun.
  cut (startup_ok cl0 s ∧ converging ns cl0 s); [tauto|].
  revert Hrun.
  apply (run_invariant (NewController ns)
           (λ s, startup_ok cl0 s ∧ converging ns cl0 s)).
  - intros l0 s0 s1 [Hst Hcv] Hstep. split.
    + by eapply startup_step.
    + by eapply converging_step.
  - split; [apply startup_initial|by apply converging_initial].
Qed.

End convergence.

(** ** The task-channel orchestrator *)

Section orchestrator_invariants.
Import K8s Container Orchestrator.

Context {St : Type} `{!Adapter St}.

Lemma bind_insert_perm {A B} (f : A → list B) (ws : list A) i w w' :
  ws !! i = Some w →
  (<[i := w']> ws ≫= f) ++ f w ≡ₚ f w' ++ (ws ≫= f).
Proof.
  revert i. induction ws as [|w0 ws IH]; intros [|i] Hi; simplify_eq/=.
  - rewrite <- !app_assoc. f_equiv. apply Permutation_app_comm.
  - rewrite <- app_assoc, (IH i) by done.
    rewrite !app_assoc. f_equiv. apply Permutation_app_comm.
Qed.

Lemma alive_insert ws i w w' :
  ws !! i = Some w →
  (alive (<[i := w']> ws) + length (live w) = length (live w') + alive ws)%nat.
Proof.
  intros Hi. unfold alive.
  rewrite <- !length_app. apply Permutation_length. by apply bind_insert_perm.
Qed.

Lemma alive_zero ws i w : alive ws = 0%nat → ws !! i = Some w → w = Returned.
Proof.
  unfold alive. revert i. induction ws as [|w0 ws IH]; intros i Hz Hi.
  - by rewrite lookup_nil in Hi.
  - rewrite bind_cons, length_app in Hz. destruct i as [|i]; simplify_eq/=.
    + destruct w; simpl in Hz; [lia..|done].
    + eapply IH; [lia|done].
Qed.

Lemma alive_replicate n : alive (replicate n Selecting) = n.
Proof.
  unfold alive. induction n as [|n IH]; [done|].
  cbn. by rewrite IH.
Qed.

Lemma in_hand_replicate n : in_hand (replicate n Selecting) = [].
Proof.
  unfold in_hand. induction n as [|n IH]; [done|].
  cbn. by rewrite IH.
Qed.

Lemma accounted_initial (a : St) count : accounted (NewOrchestrator a count).
Proof.
  unfold accounted. simpl. rewrite alive_replicate, in_hand_replicate.
  split_and!; done.
Qed.

Lemma received_snoc evs ev :
  received_tasks (evs ++ [ev]) =
    received_tasks evs ++ match ev with Received _ t => [t] | _ => [] end.
Proof. unfold received_tasks. rewrite omap_app. by destruct ev. Qed.

Lemma handled_snoc evs ev :
  handled_tasks (evs ++ [ev]) =
    handled_tasks evs ++ match ev with Handled _ t _ => [t] | _ => [] end.
Proof. unfold handled_tasks. rewrite omap_app. by destruct ev. Qed.

Ltac fin :=
  let Hsd := fresh in
  intros Hsd;
  match goal with
  | Hfin : _ → _ ∧ _ |- _ =>
      first [ destruct (Hfin Hsd); split; first [lia|congruence|done] | done ]
  | _ => done
  end.

Lemma accounted_step l (o o' : Orchestrator St) :
  accounted o → step l o = Some o' → accounted o'.
Proof.
  intros (Hwg & Hperm & Hfin) Hstep. unfold accounted, step in *.
  destruct (panicked o) eqn:Hpan; [done|].
  assert (∀ i w w', workers o !! i = Some w → held w = [] → held w' = [] →
            in_hand (<[i := w']> (workers o)) ≡ₚ in_hand (workers o)) as Hsame.
  { intros i w w' Hi Hw Hw'.
    pose proof (bind_insert_perm held _ _ _ w' Hi) as Hp.
    rewrite Hw, Hw', app_nil_r in Hp. done. }
  destruct l; simpl in Hstep; repeat case_match; simplify_eq; simpl in *;
    unfold with_events;
    rewrite ?received_snoc, ?handled_snoc, ?app_nil_r.
  - split_and!; [done..|fin].
  - split_and!; [done..|fin].
  - (* Receive on a closed, empty channel *)
    match goal with H : workers o !! _ = Some Selecting |- _ =>
      pose proof (alive_insert _ _ _ (Handling zero_task) H) as Ha;
      pose proof (bind_insert_perm held _ _ _ (Handling zero_task) H) as Hp
    end.
    simpl in Ha, Hp. rewrite app_nil_r in Hp.
    split_and!; [lia| |fin].
    fold (in_hand (<[workerID:=Handling zero_task]> (workers o))) in Hp.
    rewrite Hp, Hperm. fold (in_hand (workers o)).
    rewrite <- app_assoc. f_equiv. apply Permutation_app_comm.
  - (* Receive *)
    match goal with H : workers o !! _ = Some Selecting |- _ =>
      pose proof (alive_insert _ _ _ (Handling d) H) as Ha;
      pose proof (bind_insert_perm held _ _ _ (Handling d) H) as Hp
    end.
    simpl in Ha, Hp. rewrite app_nil_r in Hp.
    split_and!; [lia| |fin].
    fold (in_hand (<[workerID:=Handling d]> (workers o))) in Hp.
    rewrite Hp, Hperm. fold (in_hand (workers o)).
    rewrite <- app_assoc. f_equiv. apply Permutation_app_comm.
  - (* Handle, nil *)
    match goal with H : workers o !! _ = Some (Handling _) |- _ =>
      pose proof (alive_insert _ _ _ Selecting H) as Ha;
      pose proof (bind_insert_perm held _ _ _ Selecting H) as Hp
    end.
    simpl in Ha, Hp. split_and!; [lia| |fin].
    fold (in_hand (<[workerID:=Selecting]> (workers o))) in Hp.
    fold (in_hand (workers o)) in Hp.
    rewrite Hperm, <- Hp, <- app_assoc. f_equiv. apply Permutation_app_comm.
  - (* Handle, error *)
    match goal with H : workers o !! _ = Some (Handling _) |- _ =>
      pose proof (alive_insert _ _ _ Selecting H) as Ha;
      pose proof (bind_insert_perm held _ _ _ Selecting H) as Hp
    end.
    simpl in Ha, Hp. split_and!; [lia| |fin].
    fold (in_hand (<[workerID:=Selecting]> (workers o))) in Hp.
    fold (in_hand (workers o)) in Hp.
    rewrite Hperm, <- Hp, <- app_assoc. f_equiv. apply Permutation_app_comm.
  - (* Handle, panic *)
    match goal with H : workers o !! _ = Some (Handling _) |- _ =>
      pose proof (alive_insert _ _ _ Selecting H) as Ha;
      pose proof (bind_insert_perm held _ _ _ Selecting H) as Hp
    end.
    simpl in Ha, Hp. split_and!; [lia| |fin].
    fold (in_hand (<[workerID:=Selecting]> (workers o))) in Hp.
    fold (in_hand (workers o)) in Hp.
    rewrite Hperm, <- Hp, <- app_assoc. f_equiv. apply Permutation_app_comm.
  - (* CtxDone *)
    match goal with H : workers o !! _ = Some Selecting |- _ =>
      pose proof (alive_insert _ _ _ Returned H) as Ha;
      pose proof (Hsame _ _ Returned H eq_refl eq_refl) as Hp
    end.
    simpl in Ha. split_and!; [lia|by rewrite Hp|fin].
  - split_and!; [done..|fin].
  - split_and!; [done..|fin].
  - split_and!; [done..|fin].
  - split_and!; done.
Qed.

Lemma accounted_reachable (a : St) count (o : Orchestrator St) :
  reachable a count o → accounted o.
Proof.
  intros [ls Hrun]. revert Hrun.
  generalize (accounted_initial a count). generalize (NewOrchestrator a count).
  induction ls as [|l ls IH]; simpl; intros o0 Hacc Hrun.
  - by simplify_eq.
  - destruct (step l o0) as [o1|] eqn:Hs; [|done].
    eapply IH; [|done]. by eapply accounted_step.
Qed.

(** A worker that is handling a task either still handles it after a step
    of the system, or has completed [handleTask] and is back at its select. *)
Lemma handling_worker_step l (o o' : Orchestrator St) i task :
  workers o !! i = Some (Handling task) →
  step l o = Some o' →
  workers o' !! i = Some (Handling task) ∨
  (l = Handle i ∧ workers o' !! i = Some Selecting ∧
   ∃ res, events o' = events o ++ [Handled i task res]).
Proof.
  intros Hi Hstep. unfold step in Hstep.
  destruct (panicked o) eqn:Hpan; [done|].
  assert (i < length (workers o))%nat as Hlen by (by eapply lookup_lt_Some).
  destruct l; simpl in Hstep; repeat case_match; simplify_eq; simpl;
    try (by left);
    try (destruct (decide (workerID = i)) as [->|Hne];
         [simplify_eq|left; by rewrite list_lookup_insert_ne]);
    try (right; split_and!; [done|by apply list_lookup_insert_eq|by eexists]).
Qed.

Lemma SubmitTask_on_closed_channel (o : Orchestrator St) task :
  panicked o = None → closed (taskQueue o) = true →
  step (SubmitTask task) o = Some (panic "send on closed channel" o).
Proof. intros Hp Hc. unfold step. by rewrite Hp, Hc. Qed.

End orchestrator_invariants.

Section orchestrator_properties.
Import K8s Container Orchestrator Samples.

(** C7, as the code has it: in every state the orchestrator can reach,
    every task taken from the channel has been handled or is being handled;
    a worker that is handling a task cannot return before [handleTask] has
    completed; and once [Shutdown] has returned every worker has returned
    and every task taken from the channel has been handled. *)
Theorem Shutdown_waits_for_workers
    {St : Type} `{!Adapter St} (a : St) (count : nat)
    (ls : list label) (o : Orchestrator St) :
  run ls (NewOrchestrator a count) = Some o →
  received_tasks (events o) ≡ₚ handled_tasks (events o) ++ in_hand (workers o) ∧
  (∀ l o' i task,
      workers o !! i = Some (Handling task) → step l o = Some o' →
      workers o' !! i = Some (Handling task) ∨
      (l = Handle i ∧ workers o' !! i = Some Selecting ∧
       ∃ res, events o' = events o ++ [Handled i task res])) ∧
  (shutdown o = Finished →
     (∀ i w, workers o !! i = Some w → w = Returned) ∧
     received_tasks (events o) ≡ₚ handled_tasks (events o)).
Proof.
  intros Hrun.
  destruct (accounted_reachable a count o) as (Hwg & Hperm & Hfin); [by exists ls|].
  split_and!; [done| |].
  - intros l o' i task. apply handling_worker_step.
  - intros Hsd. destruct (Hfin Hsd) as [Hz _]. rewrite Hwg in Hz.
    assert (∀ i w, workers o !! i = Some w → w = Returned) as Hall
      by (intros i w; by apply alive_zero).
    split; [done|].
    assert (in_hand (workers o) = []) as Hnil; [|by rewrite Hperm, Hnil, app_nil_r].
    unfold in_hand. clear -Hall. induction (workers o) as [|w ws IH]; [done|].
    cbn. rewrite (Hall 0%nat w eq_refl). cbn. apply IH.
    intros i w' Hi. by apply (Hall (S i)).
Qed.

(** C7 fails as stated: a task is in the channel when shutdown is
    requested; worker 0, at its select with both cases ready, takes the task
    after the request. *)
Lemma worker_pulls_after_shutdown_requested :
  ∃ o, run late_receive test_orchestrator = Some o ∧
       cancelled o = true ∧ shutdown o = Waiting ∧
       workers o !! 0%nat = Some (Handling task_create) ∧
       events o = [Submitted task_create; ShutdownRequested;
                   Received 0 task_create].
Proof. eexists. split; [vm_compute; reflexivity|]. vm_compute. done. Qed.

(** The orchestrator has no exclusion per agent: two tasks for
    [agent-test] are being handled by two workers at once. *)
Lemma Orchestrator_handles_one_agent_twice_at_once :
  ∃ o, run same_agent_twice test_orchestrator = Some o ∧
       workers o = [Handling task_create; Handling task_update] ∧
       AgentID task_create = AgentID task_update.
Proof. eexists. split; [vm_compute; reflexivity|]. vm_compute. done. Qed.

(** C9, the code at the failing input: after [Shutdown] has returned on
    the orchestrator of the test (the channel is closed), [SubmitTask]
    panics with "send on closed channel". *)
Theorem SubmitTask_after_Shutdown_panics :
  ∃ o, run shutdown_only test_orchestrator = Some o ∧
       shutdown o = Finished ∧ closed (taskQueue o) = true ∧
       panicked o = None ∧
       (panicked <$> step (SubmitTask task_create) o) =
         Some (Some "send on closed channel").
Proof. eexists. split; [vm_compute; reflexivity|]. vm_compute. done. Qed.

(** The sibling design does what C9 asks: the work queue of the controller
    drops an [Add] after [ShutDown], and [Get] on the closed, drained queue
    returns the closed signal. *)
Lemma WorkQueue_closed_drops_Add key (q : WorkQueue.t) :
  WorkQueue.Add key (WorkQueue.ShutDown q) = WorkQueue.ShutDown q ∧
  (WorkQueue.queue q = [] → WorkQueue.Get (WorkQueue.ShutDown q) = WorkQueue.Closed).
Proof.
  split; [done|]. intros Hq. unfold WorkQueue.Get. simpl. by rewrite Hq.
Qed.

End orchestrator_properties.

(** ** Convergence of the controller *)

Section convergence_property.
Import K8s Controller Samples.

(** C1, as the code has it: start the controller that [NewController ns]
    builds on a store without agents and let no request fail. Whatever
    notifications arrive, in whatever order and however often, once the
    queue has drained with the queue still open every agent in the store
    has its pod [<name>-pod] in namespace [ns]. A pod that was there at the
    start is never changed and a pod that appears is the fixed pod with
    image busybox, so no update brings the image to the desired one. When
    the pod of an agent exists, [Reconcile] returns [nil] after the one read
    of the pod and changes nothing, whether the image matches or not. *)
Theorem reconcile_converges_to_pod_presence
    (ns : string) (cl0 : Cluster) (l : WorkQueue.RateLimiter)
    (ls : list label) (s : State) :
  faults cl0 = [] → agents cl0 = ∅ →
  run (NewController ns) ls (initial cl0 l) = Some s →
  (drained s → WorkQueue.shuttingDown (queue s) = false →
     ∀ nsA name a,
       agents (cluster s) !! (nsA, name) = Some a →
       is_Some (pods (cluster s) !! pod_key ns name)) ∧
  (∀ k p, pods cl0 !! k = Some p → pods (cluster s) !! k = Some p) ∧
  (∀ k p, pods cl0 !! k = None → pods (cluster s) !! k = Some p →
          k.1 = ns ∧ p = agent_pod (mkK8sAdapter ns) k.2 ∧
          Image <$> Containers (pod_Spec p) = ["busybox"]) ∧
  deployments (cluster s) = deployments cl0 ∧
  (∀ (a : K8sAdapter) agent cl p,
      next_fault cl = None →
      pods cl !! pod_key (namespace a) (agent_Name agent) = Some p →
      (K8sAdapter_Reconcile a agent cl).1 = None ∧
      pods (K8sAdapter_Reconcile a agent cl).2 = pods cl ∧
      requests (K8sAdapter_Reconcile a agent cl).2 =
        requests cl ++ [GetPod (namespace a) (agent_Name agent +:+ "-pod")]).
Proof.
  intros Hf Ha Hrun.
  destruct (converging_reachable ns cl0 l ls s Hf Ha Hrun)
    as (_ & Hwf & Hdep & Hpods & Howed).
  split_and!.
  - intros (Hund & _ & Hdirty & _ & Hfl) Hs nsA name a Hag.
    destruct (pods (cluster s) !! pod_key ns name) as [p|] eqn:Hp; [by eexists|].
    exfalso. destruct (Howed Hs _ _ _ Hag Hp) as [Hu|[Hd|[i Hi]]].
    + rewrite Hund in Hu. set_solver.
    + rewrite Hdirty in Hd. set_solver.
    + by eapply in_flight_nil_not_reconciling.
  - intros k p Hk. destruct (Hpods k) as [->|(? & _)]; congruence.
  - intros k p Hk Hp. destruct (Hpods k) as [Heq|(_ & Hns & Hnew)]; [congruence|].
    rewrite Hnew in Hp. by simplify_eq.
  - done.
  - intros a agent cl p Hnf Hp.
    by rewrite (Reconcile_pod_present a agent cl p).
Qed.

End convergence_property.

(** ** The theorems at concrete inputs *)

Section concrete_inputs.
Import K8s Orchestrator Samples.

(** The update of [agent-test] from [test-image:v1] to [test-image:v2]. *)
Lemma UpdateAgent_touches_only_first_image_witness :
  deployments_Get "default" "agent-test" deployed = (inr deployed_deployment, fetched.2) ∧
  (0 < length (Containers (tmpl_Spec (Template (dep_Spec deployed_deployment)))))%nat ∧
  ∃ d',
    last (requests (Container.UpdateAgent (Container.mkAdapter "default")
                      task_update deployed).2) =
      Some (UpdateDeployment "default" d') ∧
    Image <$> Containers (tmpl_Spec (Template (dep_Spec d'))) = ["test-image:v2"] ∧
    dep_ObjectMeta d' = dep_ObjectMeta deployed_deployment.
Proof.
  split; [vm_compute; reflexivity|]. split; [vm_compute; lia|].
  destruct (UpdateAgent_touches_only_first_image (Container.mkAdapter "default")
              task_update deployed fetched.2 deployed_deployment)
    as (d' & _ & Hreq & Hmeta & _ & _ & _ & Hlen & (c0 & c0' & _ & Hc0' & Himg & _) & _).
  - vm_compute; reflexivity.
  - vm_compute; lia.
  - exists d'. split; [|split; [|exact Hmeta]].
    + rewrite Hreq. reflexivity.
    + destruct (Containers (tmpl_Spec (Template (dep_Spec d')))) as [|c [|c' cs]];
        simpl in *; [discriminate Hlen| |discriminate Hlen].
      injection Hc0' as ->. rewrite Himg. reflexivity.
Defined.

(** The deleted agent [default/a1] whose pod is still there. *)
Lemma reconcile_deleted_agent_keeps_workload_witness :
  Controller.SplitMetaNamespaceKey "default/a1" = inr ("default", "a1") ∧
  next_fault orphaned = None ∧
  agents orphaned !! ("default", "a1") = None ∧
  (Controller.reconcile controller "default/a1" orphaned).1 = None ∧
  pods (Controller.reconcile controller "default/a1" orphaned).2 = pods orphaned.
Proof.
  split; [reflexivity|]. split; [reflexivity|]. split; [vm_compute; reflexivity|].
  destruct (reconcile_deleted_agent_keeps_workload controller "default/a1"
              "default" "a1" orphaned) as (Hnil & Hpods & _).
  - reflexivity.
  - reflexivity.
  - vm_compute; reflexivity.
  - split; [exact Hnil|exact Hpods].
Defined.

(** One agent created, announced and reconciled on an empty cluster. *)
Lemma reconcile_converges_to_pod_presence_witness :
  faults empty_cluster = [] ∧ agents empty_cluster = ∅ ∧
  Controller.run controller one_reconciled start = Some (after one_reconciled) ∧
  Controller.drained (after one_reconciled) ∧
  WorkQueue.shuttingDown (Controller.queue (after one_reconciled)) = false ∧
  agents (Controller.cluster (after one_reconciled)) !! ("default", "a1") = Some agent_v1 ∧
  is_Some (pods (Controller.cluster (after one_reconciled))
             !! Controller.pod_key "default" "a1").
Proof.
  assert (Controller.run controller one_reconciled start = Some (after one_reconciled))
    as Hrun by (vm_compute; reflexivity).
  assert (Controller.drained (after one_reconciled)) as Hdr
    by (vm_compute; repeat split; reflexivity).
  assert (WorkQueue.shuttingDown (Controller.queue (after one_reconciled)) = false)
    as Hopen by (vm_compute; reflexivity).
  assert (agents (Controller.cluster (after one_reconciled)) !! ("default", "a1")
          = Some agent_v1) as Hag by (vm_compute; reflexivity).
  split; [reflexivity|]. split; [reflexivity|].
  split; [exact Hrun|]. split; [exact Hdr|]. split; [exact Hopen|].
  split; [exact Hag|].
  destruct (reconcile_converges_to_pod_presence "default" empty_cluster limiter
              one_reconciled (after one_reconciled) eq_refl eq_refl Hrun)
    as (Hconv & _).
  exact (Hconv Hdr Hopen "default" "a1" agent_v1 Hag).
Defined.

(** Three workers, three keys in flight. *)
Lemma per_key_mutual_exclusion_witness :
  Controller.run controller three_at_work start = Some (after three_at_work) ∧
  Controller.in_flight (Controller.workers (after three_at_work)) =
    ["default/a1"; "default/a2"; "default/a3"] ∧
  Controller.exclusive (Controller.workers (after three_at_work)) ∧
  NoDup (Controller.in_flight (Controller.workers (after three_at_work))).
Proof.
  assert (Controller.run controller three_at_work start = Some (after three_at_work))
    as Hrun by (vm_compute; reflexivity).
  split; [exact Hrun|]. split; [vm_compute; reflexivity|].
  destruct (per_key_mutual_exclusion controller empty_cluster limiter three_at_work
              (after three_at_work) Hrun) as (Hex & Hnd & _).
  split; [exact Hex|exact Hnd].
Defined.

Lemma pending_queue_wf : Controller.queue_wf pending_queue.
Proof.
  apply Add_wf. split; [apply NoDup_nil_2|].
  intros key Hkey. by apply elem_of_nil in Hkey.
Qed.

(** Three notifications for [default/a1] while worker 0 holds it, and the
    re-run of a pending key. *)
Lemma enqueue_coalesces_witness :
  Controller.run controller three_at_work start = Some (after three_at_work) ∧
  Controller.workers (after three_at_work) !! 0%nat
    = Some (Controller.Reconciling "default/a1") ∧
  WorkQueue.shuttingDown (Controller.queue (after three_at_work)) = false ∧
  WorkQueue.queue (Controller.queue (after three_at_work)) = [] ∧
  WorkQueue.queue
    (Controller.finish controller "default/a1" None
       (Nat.iter 3 (WorkQueue.Add "default/a1")
          (Controller.queue (after three_at_work)))).1 = ["default/a1"] ∧
  Controller.queue_wf pending_queue ∧
  WorkQueue.Get pending_queue = WorkQueue.Item "default/a1" taken_queue ∧
  "default/a1" ∉ WorkQueue.queue
                   (Controller.finish controller "default/a1" None taken_queue).1.
Proof.
  assert (Controller.run controller three_at_work start = Some (after three_at_work))
    as Hrun by (vm_compute; reflexivity).
  assert (WorkQueue.queue (Controller.queue (after three_at_work)) = [])
    as Hq by (vm_compute; reflexivity).
  assert (WorkQueue.Get pending_queue = WorkQueue.Item "default/a1" taken_queue)
    as Hget by (vm_compute; reflexivity).
  split; [exact Hrun|]. split; [vm_compute; reflexivity|].
  split; [vm_compute; reflexivity|]. split; [exact Hq|].
  destruct (enqueue_coalesces controller empty_cluster limiter three_at_work
              (after three_at_work) Hrun) as (_ & Hheld & Hrerun).
  split.
  - destruct (Hheld 0%nat (Controller.Reconciling "default/a1") "default/a1")
      as (_ & Hone); [vm_compute; reflexivity|reflexivity|].
    destruct (Hone 2%nat None) as (_ & Hfin & _); [vm_compute; reflexivity|].
    rewrite Hfin, Hq. reflexivity.
  - split; [exact pending_queue_wf|]. split; [exact Hget|].
    destruct (Hrerun "default/a1" pending_queue taken_queue None pending_queue_wf Hget)
      as (Hgone & _).
    exact Hgone.
Defined.

(** [stopCh] is closed before the informer has synced. *)
Lemma workers_start_after_cache_sync_witness :
  Controller.run controller sync_failed start = Some (after sync_failed) ∧
  Controller.CacheSyncFailed ∈ Controller.trace (after sync_failed) ∧
  (Controller.CacheSynced ∉ Controller.trace (after sync_failed)) ∧
  Controller.workers (after sync_failed) = [] ∧
  requests (Controller.cluster (after sync_failed)) = [].
Proof.
  assert (Controller.run controller sync_failed start = Some (after sync_failed))
    as Hrun by (vm_compute; reflexivity).
  assert (Controller.CacheSyncFailed ∈ Controller.trace (after sync_failed)) as Hin.
  { change (Controller.trace (after sync_failed))
      with [Controller.InformerStarted; Controller.CacheSyncFailed].
    apply list_elem_of_further, list_elem_of_here. }
  destruct (workers_start_after_cache_sync controller empty_cluster limiter sync_failed
              (after sync_failed) Hrun) as (_ & _ & Hnone & Hfail).
  split; [exact Hrun|]. split; [exact Hin|]. split; [exact (Hfail Hin)|].
  destruct (Hnone (Hfail Hin)) as (Hw & Hreq & _).
  split; [exact Hw|exact Hreq].
Defined.


(** The limiter of 5 ms doubling up to 1000 s: two failures on the fresh
    queue, and a failure after the ceiling was met. *)
Lemma backoff_monotone_and_reset_witness :
  (0 ≤ WorkQueue.baseDelay (WorkQueue.limiter fresh_queue)
     ≤ WorkQueue.maxDelay (WorkQueue.limiter fresh_queue))%Z ∧
  WorkQueue.shuttingDown fresh_queue = false ∧
  (WorkQueue.delay limiter 3 ≤ WorkQueue.delay limiter 4)%Z ∧
  WorkQueue.delay limiter 0 = 5%Z ∧
  (S (WorkQueue.NumRequeues "default/a1" fresh_queue) < Controller.maxRetries controller)%nat ∧
  WorkQueue.waiting
    (Controller.finish controller "default/a1" (Some (ErrTransient "timeout"))
       (Controller.finish controller "default/a1" (Some (ErrTransient "timeout"))
          fresh_queue).1).1 = [("default/a1", 5%Z); ("default/a1", 10%Z)] ∧
  WorkQueue.waiting
    (Controller.finish controller "default/a1" (Some (ErrTransient "timeout"))
       (Controller.finish controller "default/a1" None fresh_queue).1).1
    = [("default/a1", 5%Z)] ∧
  (0 ≤ WorkQueue.baseDelay (WorkQueue.limiter exhausted_queue)
     ≤ WorkQueue.maxDelay (WorkQueue.limiter exhausted_queue))%Z ∧
  WorkQueue.shuttingDown exhausted_queue = false ∧
  (Controller.maxRetries controller
     ≤ WorkQueue.NumRequeues "default/a1" exhausted_queue)%nat ∧
  WorkQueue.waiting
    (Controller.finish controller "default/a1" (Some (ErrTransient "timeout"))
       (Controller.finish controller "default/a1" (Some (ErrTransient "timeout"))
          exhausted_queue).1).1 = [("default/a1", 5%Z)].
Proof.
  assert (0 ≤ WorkQueue.baseDelay (WorkQueue.limiter fresh_queue)
            ≤ WorkQueue.maxDelay (WorkQueue.limiter fresh_queue))%Z as Hb
    by (vm_compute; split; discriminate).
  assert (S (WorkQueue.NumRequeues "default/a1" fresh_queue)
          < Controller.maxRetries controller)%nat as Hlt by (vm_compute; lia).
  assert (0 ≤ WorkQueue.baseDelay (WorkQueue.limiter exhausted_queue)
            ≤ WorkQueue.maxDelay (WorkQueue.limiter exhausted_queue))%Z as Hb'
    by (vm_compute; split; discriminate).
  assert (Controller.maxRetries controller
            ≤ WorkQueue.NumRequeues "default/a1" exhausted_queue)%nat as Hge
    by (vm_compute; lia).
  split; [exact Hb|]. split; [reflexivity|].
  destruct (backoff_monotone_and_reset controller "default/a1" (ErrTransient "timeout")
              (ErrTransient "timeout") fresh_queue Hb eq_refl)
    as (Hzero & _ & Hmono & _ & Hcons & Hreset & _).
  split; [apply (Hmono 3%nat 4%nat); lia|]. split; [exact Hzero|].
  split; [exact Hlt|]. split; [exact (proj1 (Hcons Hlt))|].
  split; [destruct Hreset as (_ & Hbase); [vm_compute; lia|exact Hbase]|].
  destruct (backoff_monotone_and_reset controller "default/a1" (ErrTransient "timeout")
              (ErrTransient "timeout") exhausted_queue Hb' eq_refl)
    as (_ & _ & _ & _ & _ & _ & Hceil).
  split; [exact Hb'|]. split; [reflexivity|]. split; [exact Hge|].
  destruct Hceil as (_ & _ & Hbase); [vm_compute; lia|exact Hge|exact Hbase].
Defined.

(** A task taken before the request to shut down and handled after it. *)
Lemma Shutdown_waits_for_workers_witness :
  Orchestrator.run orderly_shutdown test_orchestrator
    = Some (orchestrator_after orderly_shutdown) ∧
  Orchestrator.shutdown (orchestrator_after orderly_shutdown) = Orchestrator.Finished ∧
  Orchestrator.handled_tasks (Orchestrator.events (orchestrator_after orderly_shutdown))
    = [task_create] ∧
  Orchestrator.received_tasks (Orchestrator.events (orchestrator_after orderly_shutdown))
    ≡ₚ Orchestrator.handled_tasks
         (Orchestrator.events (orchestrator_after orderly_shutdown)) ∧
  Orchestrator.workers (orchestrator_after orderly_shutdown) !! 0%nat
    = Some Orchestrator.Returned.
Proof.
  assert (Orchestrator.run orderly_shutdown test_orchestrator
          = Some (orchestrator_after orderly_shutdown)) as Hrun
    by (vm_compute; reflexivity).
  assert (Orchestrator.shutdown (orchestrator_after orderly_shutdown)
          = Orchestrator.Finished) as Hfin by (vm_compute; reflexivity).
  split; [exact Hrun|]. split; [exact Hfin|]. split; [vm_compute; reflexivity|].
  destruct (Shutdown_waits_for_workers test_mock 2 orderly_shutdown
              (orchestrator_after orderly_shutdown) Hrun) as (_ & _ & Hdone).
  destruct (Hdone Hfin) as (Hall & Hperm).
  split; [exact Hperm|]. vm_compute; reflexivity.
Defined.

End concrete_inputs.

(** * Further properties of the adapter, the orchestrator and the controller *)

(** ** Requests that change deployments *)

Section deployment_requests.
Import K8s.

(** Every request logs itself, consumes one injected outcome and leaves
    agents and pods alone; what it does to the deployments depends on whether
    it was served. *)
Lemma deployments_Create_effect ns d c res c' :
  deployments_Create ns d c = (res, c') →
  agents c' = agents c ∧ pods c' = pods c ∧
  requests c' = requests c ++ [CreateDeployment ns d] ∧
  faults c' = tail (faults c) ∧
  ((∃ e, res = inl e ∧ deployments c' = deployments c ∧
         (next_fault c = None → e = ErrAlreadyExists (meta_Name (dep_ObjectMeta d)) ∧
            is_Some (deployments c !! (ns, meta_Name (dep_ObjectMeta d))))) ∨
   (res = inr d ∧ next_fault c = None ∧
    deployments c !! (ns, meta_Name (dep_ObjectMeta d)) = None ∧
    deployments c' = <[(ns, meta_Name (dep_ObjectMeta d)) := d]> (deployments c))).
Proof.
  unfold deployments_Create, serve, next_fault, set_deployments.
  destruct (faults c) as [|[msg|] fs]; simpl;
    repeat case_match; intros; simplify_eq; simpl;
    (split_and!; [done..|]); first [right; by split_and! | left; eexists; split_and!; eauto; done].
Qed.

Lemma deployments_Update_effect ns d c res c' :
  deployments_Update ns d c = (res, c') →
  agents c' = agents c ∧ pods c' = pods c ∧
  requests c' = requests c ++ [UpdateDeployment ns d] ∧
  faults c' = tail (faults c) ∧
  ((∃ e, res = inl e ∧ deployments c' = deployments c) ∨
   (res = inr d ∧ next_fault c = None ∧
    is_Some (deployments c !! (ns, meta_Name (dep_ObjectMeta d))) ∧
    deployments c' = <[(ns, meta_Name (dep_ObjectMeta d)) := d]> (deployments c))).
Proof.
  unfold deployments_Update, serve, next_fault, set_deployments.
  destruct (faults c) as [|[msg|] fs]; simpl;
    repeat case_match; intros; simplify_eq; simpl;
    (split_and!; [done..|]); first [right; by split_and! | left; eexists; by split_and!].
Qed.

Lemma deployments_Delete_effect ns name c res c' :
  deployments_Delete ns name c = (res, c') →
  agents c' = agents c ∧ pods c' = pods c ∧
  requests c' = requests c ++ [DeleteDeployment ns name] ∧
  faults c' = tail (faults c) ∧
  ((∃ e, res = inl e ∧ deployments c' = deployments c ∧
         (next_fault c = None → e = ErrNotFound name ∧ deployments c !! (ns, name) = None)) ∨
   (res = inr () ∧ next_fault c = None ∧
    is_Some (deployments c !! (ns, name)) ∧
    deployments c' = delete (ns, name) (deployments c))).
Proof.
  unfold deployments_Delete, serve, next_fault, set_deployments.
  destruct (faults c) as [|[msg|] fs]; simpl;
    repeat case_match; intros; simplify_eq; simpl;
    (split_and!; [done..|]); first [right; by split_and! | left; eexists; split_and!; eauto; done].
Qed.

Lemma deployments_Get_effect ns name c res c' :
  deployments_Get ns name c = (res, c') →
  agents c' = agents c ∧ pods c' = pods c ∧ deployments c' = deployments c ∧
  requests c' = requests c ++ [GetDeployment ns name] ∧
  faults c' = tail (faults c) ∧
  (next_fault c = None →
     match deployments c !! (ns, name) with
     | Some d => res = inr d
     | None => res = inl (ErrNotFound name)
     end) ∧
  (∀ d, res = inr d → deployments c !! (ns, name) = Some d).
Proof.
  unfold deployments_Get, serve, next_fault.
  destruct (faults c) as [|[msg|] fs]; simpl;
    repeat case_match; intros; simplify_eq; simpl;
    split_and!; try done; intros; simplify_eq; done.
Qed.

End deployment_requests.

(** ** [DeployAgent], [UpdateAgent] and [DeleteAgent] together *)

Section adapter_operations.
Import K8s Container.

(** What [DeployAgent] does when the name is free and nothing fails. *)
Lemma DeployAgent_fresh (k : KubernetesAdapter) (task : DeploymentTask) (c : Cluster) :
  faults c = [] →
  deployments c !! (namespace k, AgentID task) = None →
  ∃ d,
    DeployAgent k task c =
      (Nil, mkCluster (agents c) (pods c)
              (<[(namespace k, AgentID task) := d]> (deployments c)) []
              (requests c ++ [CreateDeployment (namespace k) d])) ∧
    meta_Name (dep_ObjectMeta d) = AgentID task ∧
    meta_Labels (dep_ObjectMeta d) !! "tenant" = Some (TenantID task) ∧
    meta_Labels (dep_ObjectMeta d) !! "agent" = Some (AgentID task) ∧
    Replicas (dep_Spec d) = Some 1%Z ∧
    Selector (dep_Spec d) = meta_Labels (tmpl_ObjectMeta (Template (dep_Spec d))) ∧
    Selector (dep_Spec d) !! "agent" = Some (AgentID task) ∧
    Containers (tmpl_Spec (Template (dep_Spec d))) =
      [mkContainer (AgentID task) (ContainerImg task) []].
Proof.
  intros Hf Hnone. eexists. unfold DeployAgent, deployments_Create, serve, set_deployments.
  rewrite Hf. simpl. rewrite Hnone. simpl.
  split_and!; reflexivity.
Qed.

(** X1: on a store where the agent has no deployment and with no request
    failing, [DeployAgent] returns [nil] and a fetch of the agent's name then
    returns the deployment it created: named after the agent, labelled with
    tenant and agent, one replica, a selector equal to the labels of the pod
    template, and exactly one container, named after the agent and running
    the task's image. *)
Theorem DeployAgent_then_fetch
    (k : KubernetesAdapter) (task : DeploymentTask) (c : Cluster) :
  faults c = [] →
  deployments c !! (namespace k, AgentID task) = None →
  (DeployAgent k task c).1 = Nil ∧
  ∃ d,
    (deployments_Get (namespace k) (AgentID task) (DeployAgent k task c).2).1 = inr d ∧
    meta_Name (dep_ObjectMeta d) = AgentID task ∧
    meta_Labels (dep_ObjectMeta d) !! "tenant" = Some (TenantID task) ∧
    meta_Labels (dep_ObjectMeta d) !! "agent" = Some (AgentID task) ∧
    Replicas (dep_Spec d) = Some 1%Z ∧
    Selector (dep_Spec d) = meta_Labels (tmpl_ObjectMeta (Template (dep_Spec d))) ∧
    Selector (dep_Spec d) !! "agent" = Some (AgentID task) ∧
    Containers (tmpl_Spec (Template (dep_Spec d))) =
      [mkContainer (AgentID task) (ContainerImg task) []].
Proof.
  intros Hf Hnone.
  destruct (DeployAgent_fresh k task c Hf Hnone) as (d & -> & Hd).
  split; [done|]. exists d. split; [|exact Hd].
  unfold deployments_Get, serve. simpl. by rewrite lookup_insert_eq.
Qed.

(** X2: the deployment is keyed by the agent id alone: after one task has
    been deployed, a second [DeployAgent] for the same agent id, whatever its
    tenant and image, returns the AlreadyExists error wrapped in "deploy
    error: " and leaves the first deployment as it is. *)
Theorem DeployAgent_same_agent_collides
    (k : KubernetesAdapter) (t1 t2 : DeploymentTask) (c : Cluster) :
  faults c = [] →
  AgentID t2 = AgentID t1 →
  deployments c !! (namespace k, AgentID t1) = None →
  (DeployAgent k t1 c).1 = Nil ∧
  (DeployAgent k t2 (DeployAgent k t1 c).2).1 =
    Err (ErrWrap "deploy error: " (ErrAlreadyExists (AgentID t1))) ∧
  deployments (DeployAgent k t2 (DeployAgent k t1 c).2).2 =
    deployments (DeployAgent k t1 c).2.
Proof.
  intros Hf Hid Hnone.
  destruct (DeployAgent_fresh k t1 c Hf Hnone) as (d & -> & _).
  split; [done|]. simpl.
  unfold DeployAgent, deployments_Create, serve, set_deployments. simpl.
  rewrite Hid, lookup_insert_eq. done.
Qed.

(** The two ways [DeployAgent] can end. *)
Lemma DeployAgent_cases
    (k : KubernetesAdapter) (task : DeploymentTask) (c : Cluster) :
  agents (DeployAgent k task c).2 = agents c ∧
  pods (DeployAgent k task c).2 = pods c ∧
  (((DeployAgent k task c).1 = Nil ∧
    deployments c !! (namespace k, AgentID task) = None ∧
    ∃ d, deployments (DeployAgent k task c).2 =
           <[(namespace k, AgentID task) := d]> (deployments c)) ∨
   (∃ e, (DeployAgent k task c).1 = Err (ErrWrap "deploy error: " e) ∧
         deployments (DeployAgent k task c).2 = deployments c)).
Proof.
  unfold DeployAgent.
  match goal with |- context [deployments_Create ?ns ?d c] =>
    destruct (deployments_Create ns d c) as [res c'] eqn:Hc;
    destruct (deployments_Create_effect _ _ _ _ _ Hc)
      as (Ha & Hp & _ & _ & [(e & -> & Hd & _)|(-> & _ & Hnone & Hd)])
  end; simpl in *.
  - split_and!; [done..|]. right. eauto.
  - split_and!; [done..|]. left. split_and!; [done..|]. eauto.
Qed.

(** X4: an update after a deploy never panics: with no request failing,
    [UpdateAgent] for the agent that [DeployAgent] deployed returns [nil], and
    the stored deployment then has the one container of the deploy with the
    image of the update task; the tenant label stays that of the deploy task,
    whatever tenant the update task names. *)
Theorem Deploy_then_Update
    (k : KubernetesAdapter) (t t' : DeploymentTask) (c : Cluster) :
  faults c = [] →
  AgentID t' = AgentID t →
  deployments c !! (namespace k, AgentID t) = None →
  (UpdateAgent k t' (DeployAgent k t c).2).1 = Nil ∧
  ∃ d,
    deployments (UpdateAgent k t' (DeployAgent k t c).2).2
      !! (namespace k, AgentID t) = Some d ∧
    Containers (tmpl_Spec (Template (dep_Spec d))) =
      [mkContainer (AgentID t) (ContainerImg t') []] ∧
    meta_Labels (dep_ObjectMeta d) !! "tenant" = Some (TenantID t) ∧
    Replicas (dep_Spec d) = Some 1%Z.
Proof.
  intros Hf Hid Hnone.
  destruct (DeployAgent_fresh k t c Hf Hnone)
    as (d & -> & Hname & Hten & _ & Hrep & _ & _ & Hcs).
  simpl. unfold UpdateAgent, deployments_Get, serve. simpl.
  rewrite Hid, lookup_insert_eq. simpl.
  unfold set_first_image. rewrite Hcs.
  unfold deployments_Update, serve, set_deployments. simpl.
  rewrite Hname, lookup_insert_eq. simpl.
  split; [done|]. eexists. rewrite lookup_insert_eq. split; [done|]. simpl.
  split_and!; done.
Qed.

(** X5: a delete undoes a deploy: with no request failing, deploying an
    agent that had no deployment and then deleting it returns [nil] twice and
    leaves the deployments exactly as they were. *)
Theorem Deploy_then_Delete
    (k : KubernetesAdapter) (t t' : DeploymentTask) (c : Cluster) :
  faults c = [] →
  AgentID t' = AgentID t →
  deployments c !! (namespace k, AgentID t) = None →
  (DeployAgent k t c).1 = Nil ∧
  (DeleteAgent k t' (DeployAgent k t c).2).1 = Nil ∧
  deployments (DeleteAgent k t' (DeployAgent k t c).2).2 = deployments c.
Proof.
  intros Hf Hid Hnone.
  destruct (DeployAgent_fresh k t c Hf Hnone) as (d & -> & _).
  simpl. unfold DeleteAgent, deployments_Delete, serve, set_deployments. simpl.
  rewrite Hid, lookup_insert_eq. simpl.
  split_and!; [done..|]. by rewrite delete_insert_eq, delete_id.
Qed.

(** X6: on an agent that has no deployment, [UpdateAgent] and [DeleteAgent]
    return the bare NotFound error of the API server (not wrapped, so
    [errors.IsNotFound] recognises it), change nothing, and [UpdateAgent]
    submits no update after its fetch. *)
Theorem Update_and_Delete_of_missing_deployment
    (k : KubernetesAdapter) (task : DeploymentTask) (c : Cluster) :
  next_fault c = None →
  deployments c !! (namespace k, AgentID task) = None →
  (UpdateAgent k task c).1 = Err (ErrNotFound (AgentID task)) ∧
  requests (UpdateAgent k task c).2 =
    requests c ++ [GetDeployment (namespace k) (AgentID task)] ∧
  deployments (UpdateAgent k task c).2 = deployments c ∧
  (DeleteAgent k task c).1 = Err (ErrNotFound (AgentID task)) ∧
  deployments (DeleteAgent k task c).2 = deployments c ∧
  IsNotFound (ErrNotFound (AgentID task)) = true.
Proof.
  intros Hf Hnone.
  unfold UpdateAgent, DeleteAgent, deployments_Get, deployments_Delete.
  rewrite !serve_unfaulted by done. simpl. rewrite Hnone. simpl. done.
Qed.

(** X7: on a store that holds every deployment under its own name, and
    whatever requests fail, none of the three operations touches an agent, a
    pod, or the deployment of any other name or namespace, and the store
    still holds every deployment under its own name afterwards. *)
Theorem adapter_touches_only_its_deployment
    (k : KubernetesAdapter) (task : DeploymentTask) (c : Cluster)
    (op : KubernetesAdapter → DeploymentTask → Cluster → outcome * Cluster) :
  Further.deployments_named c →
  op = DeployAgent ∨ op = UpdateAgent ∨ op = DeleteAgent →
  agents (op k task c).2 = agents c ∧
  pods (op k task c).2 = pods c ∧
  (∀ key, key ≠ (namespace k, AgentID task) →
          deployments (op k task c).2 !! key = deployments c !! key) ∧
  Further.deployments_named (op k task c).2.
Proof.
  intros Hwf [-> | [-> | ->]].
  - pose proof (DeployAgent_cases k task c) as (Ha & Hp & Hcases).
    split; [done|]. split; [done|].
    destruct Hcases as [(Hnil & Hnone & d & Hd)|(e & _ & Hd)]; rewrite ?Hd.
    + split; [intros key Hne; by rewrite lookup_insert_ne|].
      intros ns name d' Hl. unfold Further.deployments_named in Hwf.
      rewrite Hd in Hl.
      apply lookup_insert_Some in Hl as [[[= <- <-] <-]|[_ Hl]]; [|eauto].
      revert Hd Hnone. unfold DeployAgent, deployments_Create, serve, set_deployments.
      destruct (faults c) as [|[msg|] fs]; simpl; intros Hd Hnone;
        rewrite ?Hnone in Hd; simpl in Hd.
      * assert (Hlk := f_equal (λ m, m !! (namespace k, AgentID task)) Hd).
        simpl in Hlk. rewrite !lookup_insert_eq in Hlk. by simplify_eq.
      * assert (Hlk := f_equal (λ m, m !! (namespace k, AgentID task)) Hd).
        simpl in Hlk. rewrite lookup_insert_eq, Hnone in Hlk. done.
      * assert (Hlk := f_equal (λ m, m !! (namespace k, AgentID task)) Hd).
        simpl in Hlk. rewrite !lookup_insert_eq in Hlk. by simplify_eq.
    + split; [done|]. intros ns name d' Hl. rewrite Hd in Hl. eauto.
  - unfold UpdateAgent.
    destruct (deployments_Get (namespace k) (AgentID task) c) as [[e|d] c1] eqn:Hg;
      destruct (deployments_Get_effect _ _ _ _ _ Hg) as (Ha & Hp & Hd & _ & _ & _ & Hsome);
      simpl.
    { rewrite Ha, Hp. split_and!; [done..|by rewrite Hd|].
      intros ns name d' Hl. rewrite Hd in Hl. eauto. }
    destruct (set_first_image (ContainerImg task) d) as [d'|] eqn:Hset; simpl.
    2:{ rewrite Ha, Hp. split_and!; [done..|by rewrite Hd|].
        intros ns name d0 Hl. rewrite Hd in Hl. eauto. }
    destruct (set_first_image_spec _ _ _ Hset) as (Hmeta & _).
    specialize (Hsome d eq_refl).
    assert (meta_Name (dep_ObjectMeta d') = AgentID task) as Hname
      by (rewrite Hmeta; eauto).
    destruct (deployments_Update (namespace k) d' c1) as [res c2] eqn:Hu.
    destruct (deployments_Update_effect _ _ _ _ _ Hu)
      as (Ha2 & Hp2 & _ & _ & [(e & -> & Hd2)|(-> & _ & _ & Hd2)]); simpl;
      rewrite Ha2, Hp2, Ha, Hp; split_and!; try done.
    + intros key Hne. by rewrite Hd2, Hd.
    + intros ns name d0 Hl. rewrite Hd2, Hd in Hl. eauto.
    + intros key Hne. rewrite Hd2, Hname, lookup_insert_ne, Hd by done. done.
    + intros ns name d0 Hl. rewrite Hd2, Hname, Hd in Hl.
      apply lookup_insert_Some in Hl as [[[= <- <-] <-]|[_ Hl]]; [done|eauto].
  - unfold DeleteAgent.
    destruct (deployments_Delete (namespace k) (AgentID task) c) as [res c'] eqn:Hd.
    destruct (deployments_Delete_effect _ _ _ _ _ Hd)
      as (Ha & Hp & _ & _ & [(e & -> & Hd' & _)|(-> & _ & _ & Hd')]); simpl;
      rewrite Ha, Hp; split_and!; try done.
    + intros key Hne. by rewrite Hd'.
    + intros ns name d0 Hl. rewrite Hd' in Hl. eauto.
    + intros key Hne. by rewrite Hd', lookup_delete_ne.
    + intros ns name d0 Hl. rewrite Hd' in Hl.
      apply lookup_delete_Some in Hl as [_ Hl]. eauto.
Qed.

End adapter_operations.

(** ** The channel, the workers and the context of the orchestrator *)

Section orchestrator_order.
Import K8s Container Orchestrator Further.

Context {St : Type} `{!Adapter St}.

Lemma submitted_snoc evs ev :
  submitted_tasks (evs ++ [ev]) =
    submitted_tasks evs ++ match ev with Submitted t => [t] | _ => [] end.
Proof. unfold submitted_tasks. rewrite omap_app. by destruct ev. Qed.

Lemma alive_le_length ws : (alive ws ≤ length ws)%nat.
Proof.
  unfold alive. induction ws as [|w ws IH]; [done|].
  cbn. rewrite length_app. destruct w; simpl; lia.
Qed.

Lemma alive_full ws i w :
  alive ws = length ws → ws !! i = Some w → w ≠ Returned.
Proof.
  unfold alive. revert i. induction ws as [|w0 ws IH]; intros i Hfull Hi.
  - by rewrite lookup_nil in Hi.
  - cbn in Hfull. rewrite length_app in Hfull.
    pose proof (alive_le_length ws) as Hle. unfold alive in Hle.
    destruct i as [|i]; simplify_eq/=.
    + intros ->. simpl in Hfull. lia.
    + eapply IH; [|done]. destruct w0; simpl in Hfull; lia.
Qed.

Lemma orderly_initial (a : St) count : orderly count (NewOrchestrator a count).
Proof.
  unfold orderly. simpl. rewrite length_replicate, alive_replicate.
  split_and!; try done; [lia|]. intros i Hi. by apply elem_of_nil in Hi.
Qed.

Lemma alive_insert_live ws i w w' :
  ws !! i = Some w → live w' = live w → alive (<[i := w']> ws) = alive ws.
Proof.
  intros Hi Hl. pose proof (alive_insert ws i w w' Hi) as Ha. rewrite Hl in Ha. lia.
Qed.

(** Membership in a log that grew by one event. *)
Ltac log_grew :=
  match goal with
  | |- _ ∈ _ ++ [_] =>
      apply elem_of_app;
      first [ right; apply list_elem_of_singleton; reflexivity | left; solve [eauto] ]
  | |- ∀ _, _ ∈ _ ++ [_] → _ =>
      let H := fresh in
      intros ? [H|H]%elem_of_app;
      [ solve [eauto]
      | apply list_elem_of_singleton in H; first [discriminate H | reflexivity | done] ]
  end.

Lemma orderly_step count l (o o' : Orchestrator St) :
  orderly count o → step l o = Some o' → orderly count o'.
Proof.
  intros (Hcap & Hlen & Hws & Hwg & Hclosed & Hlive & Hreq & Hstop & Hfifo) Hstep.
  unfold step in Hstep. destruct (panicked o) eqn:Hpan; [done|].
  assert (∀ i w, workers o !! i = Some w → w ≠ Returned →
                 closed (taskQueue o) = false) as Hopen.
  { intros i w Hi Hw. destruct (closed (taskQueue o)) eqn:Hc; [|done].
    destruct (Hclosed eq_refl) as [Hz _]. exfalso. apply Hw. by eapply alive_zero. }
  destruct l; simpl in Hstep.
  - (* SubmitTask *)
    destruct (closed (taskQueue o)) eqn:Hc; simplify_eq.
    + unfold orderly, panic. simpl. rewrite Hc. split_and!; done.
    + case_decide as Hroom; simplify_eq. unfold orderly, with_events. simpl.
      rewrite submitted_snoc, received_snoc, length_app, ?app_nil_r. simpl.
      split_and!; try done; try lia; try log_grew.
      all: try (intros Hcan; specialize (Hreq Hcan); log_grew).
      all: try (by rewrite Hfifo, app_assoc).
      all: try (intros Hcan; destruct (Hlive Hcan) as (? & _ & ?); done).
  - (* Receive *)
    destruct (workers o !! workerID) as [[| |]|] eqn:Hw; try done.
    pose proof (Hopen _ _ Hw ltac:(done)) as Hc.
    destruct (buf (taskQueue o)) as [|task rest] eqn:Hbuf.
    { by rewrite Hc in Hstep. }
    simplify_eq. unfold orderly, with_events. simpl.
    rewrite submitted_snoc, received_snoc, length_insert, ?app_nil_r.
    rewrite (alive_insert_live _ _ Selecting) by done. simpl in Hlen.
    split_and!; try done; try lia; try log_grew.
    all: try (intros Hcan; specialize (Hreq Hcan); log_grew).
    all: try (by rewrite Hfifo, <- app_assoc).
    all: try (intros Hc'; congruence).
  - (* Handle *)
    destruct (workers o !! workerID) as [[|task|]|] eqn:Hw; try done.
    destruct (handleTask task (k8s o)) as [res a] eqn:Hh.
    assert (orderly count
              (mkOrchestrator (taskQueue o) (wg o) a (cancelled o)
                 (<[workerID:=Selecting]> (workers o)) (shutdown o) None
                 (with_events o (Handled workerID task res)))) as Hnext.
    { unfold orderly, with_events. simpl.
      rewrite submitted_snoc, received_snoc, length_insert, ?app_nil_r.
      rewrite (alive_insert_live _ _ (Handling task)) by done.
      split_and!; try done; try log_grew.
      all: try (intros Hcan; specialize (Hreq Hcan); log_grew).
      all: try (intros Hc'; destruct (Hclosed Hc') as [? ?]; split; [done|log_grew]). }
    destruct res; simplify_eq; try done.
  - (* CtxDone *)
    destruct (workers o !! workerID) as [[| |]|] eqn:Hw; try done.
    destruct (cancelled o) eqn:Hcan; simplify_eq.
    pose proof (alive_insert _ _ _ Returned Hw) as Ha. simpl in Ha.
    pose proof (Hopen _ _ Hw ltac:(done)) as Hc.
    unfold orderly, with_events. simpl.
    rewrite submitted_snoc, received_snoc, length_insert, ?app_nil_r.
    split_and!; try done; try lia; try log_grew.
    all: try (intros _; specialize (Hreq eq_refl); log_grew).
    all: try (intros Hc'; congruence).
  - (* ShutdownCancel *)
    assert (orderly count
              (mkOrchestrator (taskQueue o) (wg o) (k8s o) true (workers o) Waiting None
                 (with_events o ShutdownRequested))) as Hnext.
    { unfold orderly, with_events. simpl.
      rewrite submitted_snoc, received_snoc, ?app_nil_r.
      split_and!; try done; try log_grew.
      all: try (intros _; log_grew).
      all: try (intros Hc'; destruct (Hclosed Hc') as [? ?]; split; [done|log_grew]). }
    destruct (shutdown o); by simplify_eq.
  - (* ShutdownClose *)
    destruct (shutdown o) eqn:Hsd; try done.
    case_decide as Hz; [|done].
    destruct (closed (taskQueue o)) eqn:Hc; simplify_eq.
    + unfold orderly, panic. simpl. rewrite Hc, Hsd. split_and!; done.
    + unfold orderly, with_events. simpl.
      rewrite submitted_snoc, received_snoc, ?app_nil_r.
      split_and!; try done; try log_grew.
      all: try (intros Hcan; specialize (Hreq Hcan); log_grew).
      all: try (intros _; split; [lia|log_grew]).
      all: try (intros Hcan; destruct (Hlive Hcan) as (_ & _ & ?); congruence).
Qed.

Lemma orderly_reachable (a : St) count (o : Orchestrator St) :
  reachable a count o → orderly count o.
Proof.
  intros [ls Hrun]. revert Hrun.
  generalize (orderly_initial a count). generalize (NewOrchestrator a count).
  induction ls as [|l ls IH]; simpl; intros o0 Hord Hrun.
  - by simplify_eq.
  - destruct (step l o0) as [o1|] eqn:Hs; [|done].
    eapply IH; [|done]. by eapply orderly_step.
Qed.

(** X8: the task channel never holds more than its 100 slots, and on an
    open channel that holds 100 tasks [SubmitTask] blocks: the caller makes no
    progress until a worker has taken a task. *)
Theorem SubmitTask_blocks_at_capacity
    (a : St) (count : nat) (ls : list label) (o : Orchestrator St) :
  run ls (NewOrchestrator a count) = Some o →
  (length (buf (taskQueue o)) ≤ 100)%nat ∧
  (closed (taskQueue o) = false → length (buf (taskQueue o)) = 100%nat →
     ∀ task, step (SubmitTask task) o = None) ∧
  (closed (taskQueue o) = false → panicked o = None →
   (length (buf (taskQueue o)) < 100)%nat →
     ∀ task, ∃ o', step (SubmitTask task) o = Some o' ∧
                   buf (taskQueue o') = buf (taskQueue o) ++ [task] ∧
                   panicked o' = None).
Proof.
  intros Hrun.
  destruct (orderly_reachable a count o) as (Hcap & Hlen & _); [by exists ls|].
  split; [done|]. split.
  - intros Hc Hfull task. unfold step. rewrite Hc, Hcap.
    destruct (panicked o); [done|]. rewrite decide_False by lia. done.
  - intros Hc Hp Hroom task. unfold step. rewrite Hp, Hc, Hcap.
    rewrite decide_True by lia. eexists. split_and!; done.
Qed.

(** X9: the channel neither loses, invents nor reorders tasks: in every
    state the orchestrator can reach, the tasks submitted so far are the tasks
    the workers have received, in that order, followed by the tasks still in
    the channel. *)
Theorem tasks_are_received_in_submission_order
    (a : St) (count : nat) (ls : list label) (o : Orchestrator St) :
  run ls (NewOrchestrator a count) = Some o →
  submitted_tasks (events o) = received_tasks (events o) ++ buf (taskQueue o).
Proof.
  intros Hrun.
  by destruct (orderly_reachable a count o) as (_ & _ & _ & _ & _ & _ & _ & _ & ?);
    [by exists ls|].
Qed.

(** X10: [Shutdown] can be called once only: when a call has returned, a
    second call passes [cancel] and [wg.Wait] at once and panics in
    [close(o.taskQueue)] with "close of closed channel". *)
Theorem second_Shutdown_panics
    (a : St) (count : nat) (ls : list label) (o : Orchestrator St) :
  run ls (NewOrchestrator a count) = Some o →
  shutdown o = Finished → panicked o = None →
  ∃ o1 o2, step ShutdownCancel o = Some o1 ∧ step ShutdownClose o1 = Some o2 ∧
           panicked o2 = Some "close of closed channel".
Proof.
  intros Hrun Hfin Hp.
  destruct (accounted_reachable a count o) as (_ & _ & Hdone); [by exists ls|].
  destruct (Hdone Hfin) as [Hz Hc].
  unfold step. rewrite Hp, Hfin. eexists _, _. split; [done|]. simpl.
  rewrite Hz, Hc. simpl. split; done.
Qed.

(** X13: a worker stops only after [Shutdown] was requested and the channel
    is closed only by a [Shutdown] that returned: in every state the
    orchestrator can reach there are as many worker slots as workers were
    asked for; while the context is not cancelled no worker has returned, the
    wait group still counts them all and the channel is open; a worker that
    logged its stop did so after the request; and a closed channel means that
    a [Shutdown] has returned and that every worker has returned. *)
Theorem workers_run_until_Shutdown
    (a : St) (count : nat) (ls : list label) (o : Orchestrator St) :
  run ls (NewOrchestrator a count) = Some o →
  length (workers o) = count ∧
  (cancelled o = false →
     wg o = count ∧ closed (taskQueue o) = false ∧
     ∀ i w, workers o !! i = Some w → w ≠ Returned) ∧
  (∀ i, Stopping i ∈ events o → ShutdownRequested ∈ events o) ∧
  (closed (taskQueue o) = true →
     ShutdownReturned ∈ events o ∧
     ∀ i w, workers o !! i = Some w → w = Returned).
Proof.
  intros Hrun.
  destruct (orderly_reachable a count o)
    as (_ & _ & Hws & Hwg & Hclosed & Hlive & Hreq & Hstop & _); [by exists ls|].
  split_and!; [done| | |].
  - intros Hcan. destruct (Hlive Hcan) as (Hal & Hc & _).
    split_and!; [congruence|done|].
    intros i w Hi. eapply alive_full; [|done]. congruence.
  - intros i Hi. eauto.
  - intros Hc. destruct (Hclosed Hc) as [Hz Hret]. split; [done|].
    intros i w Hi. by eapply alive_zero.
Qed.

(** Once every worker has returned nothing handles a task any more. *)
Lemma no_worker_no_handling l (o o' : Orchestrator St) :
  alive (workers o) = 0%nat → step l o = Some o' →
  alive (workers o') = 0%nat ∧ handled_tasks (events o') = handled_tasks (events o) ∧
  k8s o' = k8s o.
Proof.
  intros Hz Hstep. unfold step in Hstep.
  destruct (panicked o) eqn:Hpan; [done|].
  assert (∀ i w, workers o !! i = Some w → w = Returned) as Hall
    by (intros i w; by apply alive_zero).
  destruct l; simpl in Hstep; repeat case_match; simplify_eq; simpl;
    unfold with_events; rewrite ?handled_snoc, ?app_nil_r;
    try done;
    match goal with H : workers o !! _ = Some _ |- _ => by apply Hall in H end.
Qed.

Lemma no_worker_no_handling_run ls (o o' : Orchestrator St) :
  alive (workers o) = 0%nat → run ls o = Some o' →
  handled_tasks (events o') = handled_tasks (events o) ∧ k8s o' = k8s o.
Proof.
  revert o. induction ls as [|l ls IH]; simpl; intros o Hz Hrun.
  - by simplify_eq.
  - destruct (step l o) as [o1|] eqn:Hs; [|done].
    destruct (no_worker_no_handling _ _ _ Hz Hs) as (Hz1 & Hh & Hk).
    destruct (IH o1 Hz1 Hrun) as [? ?]. split; congruence.
Qed.

(** Every worker from slot [k] on chooses the cancellation. *)
Lemma all_workers_stop (o : Orchestrator St) k m :
  panicked o = None → cancelled o = true →
  workers o = replicate k Returned ++ replicate m Selecting →
  ∃ o', run (CtxDone <$> seq k m) o = Some o' ∧
        workers o' = replicate (k + m) Returned ∧ wg o' = wg o - m ∧
        taskQueue o' = taskQueue o ∧ k8s o' = k8s o ∧ shutdown o' = shutdown o ∧
        panicked o' = None ∧ cancelled o' = true ∧
        handled_tasks (events o') = handled_tasks (events o).
Proof.
  revert k o. induction m as [|m IH]; intros k o Hp Hc Hws.
  - exists o. simpl in *. rewrite Nat.add_0_r, Nat.sub_0_r, app_nil_r in *.
    split_and!; done.
  - cbn [seq fmap list_fmap run].
    assert (workers o !! k = Some Selecting) as Hk.
    { rewrite Hws, lookup_app_r by (by rewrite length_replicate).
      rewrite length_replicate, Nat.sub_diag. done. }
    unfold step at 1. rewrite Hp, Hk, Hc.
    match goal with |- context [run _ ?o1] =>
      destruct (IH (S k) o1) as (o' & Hrun & Hws' & Hwg' & Hq & Hk8s & Hsd & Hp' & Hc' & Hh)
    end; simpl; [done..| |].
    { rewrite Hws.
      replace k with (length (replicate k Returned) + 0) at 1
        by (rewrite length_replicate; lia).
      rewrite insert_app_r. simpl.
      rewrite app_comm_cons, replicate_cons_app, <- app_assoc. done. }
    exists o'. rewrite Hrun. simpl in *.
    unfold with_events in Hh. rewrite handled_snoc, app_nil_r in Hh.
    split_and!; try done; [by rewrite Hws', Nat.add_succ_r|lia].
Qed.

(** X12: [Shutdown] does not drain the channel: for every number of workers
    and every task there is a run in which the task is submitted, [Shutdown]
    is then called and returns, and the task is still in the channel, handled
    by no worker and unknown to the adapter; and whatever happens afterwards,
    no task is handled any more. *)
Theorem Shutdown_can_strand_a_submitted_task
    (a : St) (count : nat) (task : DeploymentTask) :
  ∃ o, run (strand task count) (NewOrchestrator a count) = Some o ∧
       shutdown o = Finished ∧ panicked o = None ∧
       buf (taskQueue o) = [task] ∧ handled_tasks (events o) = [] ∧ k8s o = a ∧
       ∀ ls o', run ls o = Some o' →
                handled_tasks (events o') = [] ∧ k8s o' = a.
Proof.
  assert (∀ (l1 l2 : list label) (x y : Orchestrator St),
            run l1 x = Some y → run (l1 ++ l2) x = run l2 y) as Happ.
  { induction l1 as [|l l1 IH]; simpl; intros l2 x y Hr; [by simplify_eq|].
    destruct (step l x); [eauto|done]. }
  set (o2 := mkOrchestrator (mkChan [task] 100 false) count a true
               (replicate count Selecting) Waiting None
               [Submitted task; ShutdownRequested]).
  assert (run [SubmitTask task; ShutdownCancel] (NewOrchestrator a count) = Some o2)
    as Hrun2.
  { reflexivity. }
  destruct (all_workers_stop o2 0 count)
    as (o3 & Hrun3 & Hws & Hwg & Hq & Hk8s & Hsd & Hp & Hc & Hh); [done..|].
  simpl in Hwg, Hq, Hk8s, Hsd, Hh, Hws.
  assert (∃ o5, step ShutdownClose o3 = Some o5 ∧ shutdown o5 = Finished ∧
                panicked o5 = None ∧ buf (taskQueue o5) = [task] ∧
                handled_tasks (events o5) = [] ∧ k8s o5 = a ∧
                workers o5 = workers o3) as (o5 & Hs5 & Hfin & Hp5 & Hb5 & Hh5 & Hk5 & Hw5).
  { unfold step. rewrite Hp, Hsd, Hwg, Nat.sub_diag, Hq. simpl.
    eexists. split; [done|]. simpl. unfold with_events.
    rewrite handled_snoc, app_nil_r, Hh. split_and!; done. }
  exists o5. unfold strand.
  rewrite (Happ _ _ _ _ Hrun2), (Happ _ _ _ _ Hrun3). simpl. rewrite Hs5.
  split_and!; try done.
  intros ls o6 Hrun6.
  destruct (no_worker_no_handling_run ls o5 o6) as [Hh6 Hk6]; [|done|].
  { rewrite Hw5, Hws. clear. induction count as [|n IH]; [done|]. by cbn. }
  rewrite Hh6, Hk6. done.
Qed.

End orchestrator_order.

Section mock_adapter.
Import K8s Container Orchestrator Samples Further.





Lemma test_mock_called_eq :
  test_mock_called = mkMock [mkCall "DeployAgent" task_create None (-1) 1]
                       [CalledDeploy task_create].
Proof. reflexivity. Qed.

(** The mock of the test answers the first [DeployAgent] of the test's task
    and nothing else. *)
Lemma handleTask_test_mock task :
  (task = task_create ∧ handleTask task test_mock = (Nil, test_mock_called)) ∨
  (task ≠ task_create ∧ ∃ res, handleTask task test_mock = (res, test_mock)).
Proof.
  destruct (decide (task = task_create)) as [->|Hne]; [left; by split|right].
  split; [done|]. unfold handleTask.
  repeat case_match; simpl; unfold Called, test_mock, On; simpl;
    try rewrite bool_decide_eq_false_2 by (intros (? & ? & ?); congruence);
    simpl; eauto.
Qed.

Lemma handleTask_test_mock_called task :
  ∃ res, handleTask task test_mock_called = (res, test_mock_called).
Proof.
  rewrite test_mock_called_eq. unfold handleTask.
  repeat case_match; simpl; unfold Called; simpl;
    try rewrite bool_decide_eq_false_2 by (intros (? & ? & ?); lia);
    simpl; eauto.
Qed.

(** X18: the outcome of [TestOrchestrator_SubmitTask] depends on the
    schedule. In every state that the orchestrator of the test can reach,
    [AssertExpectations] holds exactly when the test's task has been handled;
    and the body of the test, [SubmitTask(task)] then [Shutdown()], has a run
    in which a worker takes and handles the task, so that the assertion holds
    when [Shutdown] has returned, and a run in which both workers choose the
    cancellation, so that [Shutdown] returns with the task never handled and
    the assertion fails. *)
Theorem test_outcome_depends_on_schedule :
  (∀ ls o, run ls test_orchestrator = Some o →
     (AssertExpectations (k8s o) = true ↔ task_create ∈ handled_tasks (events o))) ∧
  (∃ o, run orderly_shutdown test_orchestrator = Some o ∧
        shutdown o = Finished ∧ panicked o = None ∧
        submitted_tasks (events o) = [task_create] ∧
        AssertExpectations (k8s o) = true) ∧
  (∃ o, run (strand task_create 2) test_orchestrator = Some o ∧
        shutdown o = Finished ∧ panicked o = None ∧
        submitted_tasks (events o) = [task_create] ∧
        AssertExpectations (k8s o) = false).
Proof.
  split; [|split].
  - set (inv := λ o : Orchestrator Mock,
      (k8s o = test_mock ∧ task_create ∉ handled_tasks (events o)) ∨
      (k8s o = test_mock_called ∧ task_create ∈ handled_tasks (events o))).
    assert (∀ l o0 o1, inv o0 → step l o0 = Some o1 → inv o1) as Hstep.
    { intros l o0 o1 Hinv Hs. unfold step in Hs.
      destruct (panicked o0) eqn:Hp0; [done|].
      destruct l; simpl in Hs.
      all: try (repeat case_match; simplify_eq; unfold inv, panic, with_events; simpl;
                rewrite ?handled_snoc, ?app_nil_r; exact Hinv).
      destruct (workers o0 !! workerID) as [[|task|]|] eqn:Hw; try done.
      assert (∀ res m',
                handleTask task (k8s o0) = (res, m') →
                inv (mkOrchestrator (taskQueue o0) (wg o0) m' (cancelled o0)
                       (<[workerID := Selecting]> (workers o0)) (shutdown o0) None
                       (with_events o0 (Handled workerID task res)))) as Hh.
      { intros res m' Hh. unfold inv, with_events. simpl. rewrite handled_snoc.
        destruct Hinv as [[Hk Hnot]|[Hk Hin]]; rewrite Hk in Hh.
        - destruct (handleTask_test_mock task) as [[-> Heq]|(Hne & res' & Heq)];
            rewrite Heq in Hh; simplify_eq.
          + right. split; [done|]. set_solver.
          + left. split; [done|]. set_solver.
        - destruct (handleTask_test_mock_called task) as [res' Heq].
          rewrite Heq in Hh. simplify_eq. right. split; [done|]. set_solver. }
      destruct (handleTask task (k8s o0)) as [res m'] eqn:Heq.
      specialize (Hh _ _ eq_refl).
      destruct res; simplify_eq; exact Hh. }
    assert (∀ ls o0, inv o0 → ∀ o', run ls o0 = Some o' → inv o') as Hrun.
    { induction ls as [|l ls' IH]; simpl; intros o0 Hinv o' Hr; [by simplify_eq|].
      destruct (step l o0) as [o1|] eqn:Hs; [|done]. eauto. }
    intros ls o Hr.
    assert (inv o) as [[-> Hnot]|[-> Hin]].
    { apply (Hrun ls test_orchestrator); [|done]. left. split; [done|].
      simpl. apply not_elem_of_nil. }
    + split; [by intros [=]|done].
    + split; [done|by intros _].
  - eexists. split; [vm_compute; reflexivity|]. by vm_compute.
  - eexists. split; [vm_compute; reflexivity|]. by vm_compute.
Qed.

End mock_adapter.

(** ** One reconcile under failing requests, and two in a row *)

Section reconcile_more.
Import K8s Controller Further.

(** X14: whatever requests fail, one [reconcile] of the controller built by
    [NewController] makes at most three requests, each a read of the agent, a
    read of the pod or the creation of the pod, and none at all for a key that
    does not split; it never changes an agent or a deployment, never changes
    or removes a pod that exists, and the only pod it can add is the fixed pod
    in its own namespace; and when it returns [nil] for a key whose agent is
    in the store, the pod of that agent exists afterwards. *)
Theorem reconcile_under_failures
    (ns key : string) (cl : Cluster) :
  agents (reconcile (NewController ns) key cl).2 = agents cl ∧
  deployments (reconcile (NewController ns) key cl).2 = deployments cl ∧
  (∀ k, pods (reconcile (NewController ns) key cl).2 !! k = pods cl !! k ∨
        (pods cl !! k = None ∧ k.1 = ns ∧
         pods (reconcile (NewController ns) key cl).2 !! k
           = Some (agent_pod (mkK8sAdapter ns) k.2))) ∧
  (∃ rs, requests (reconcile (NewController ns) key cl).2 = requests cl ++ rs ∧
         (length rs ≤ 3)%nat ∧ Forall reconcile_request rs ∧
         (∀ e, SplitMetaNamespaceKey key = inl e → rs = [])) ∧
  (∀ nsA name agent,
      (reconcile (NewController ns) key cl).1 = None →
      SplitMetaNamespaceKey key = inr (nsA, name) →
      agents cl !! (nsA, name) = Some agent →
      is_Some (pods (reconcile (NewController ns) key cl).2
                 !! pod_key ns (agent_Name agent))).
Proof.
  unfold reconcile.
  destruct (SplitMetaNamespaceKey key) as [e|[nsA name]] eqn:Hk; simpl.
  { split; [done|]. split; [done|]. split; [by left|]. split.
    - exists []. rewrite app_nil_r. split_and!; [done|simpl; lia|done|done].
    - intros; simplify_eq. }
  unfold agents_Get, K8sAdapter_Reconcile, pods_Get, pods_Create, serve, set_pods, pod_key.
  destruct (faults cl) as [|[m1|] [|[m2|] [|[m3|] fs]]]; simpl;
    destruct (agents cl !! (nsA, name)) as [agent|] eqn:Ha; simpl;
    try destruct (pods cl !! (ns, agent_Name agent +:+ "-pod")) as [p|] eqn:Hp;
    simpl; rewrite ?Hp; simpl;
    (split; [done|]); (split; [done|]);
    (split;
     [intros k;
      first [ by left
            | destruct (decide (k = (ns, agent_Name agent +:+ "-pod"))) as [->|Hne];
              [right; by rewrite lookup_insert_eq
              |left; by rewrite lookup_insert_ne] ]|]);
    (split;
     [eexists; split;
      [rewrite <- ?app_assoc; reflexivity
      |split_and!; [simpl; lia|repeat constructor|intros; simplify_eq]]|]);
    intros ??? Hnil [= <- <-] Ha'; simplify_eq;
    rewrite ?Hp, ?lookup_insert_eq; eauto.
Qed.

(** X15: reconciling is safe to repeat: with no request failing, a second
    [reconcile] of the same key right after the first returns what the first
    returned, only reads, and leaves agents, pods and deployments as the first
    left them. *)
Theorem reconcile_twice_is_reconcile_once
    (ns key : string) (cl : Cluster) :
  faults cl = [] →
  (reconcile (NewController ns) key (reconcile (NewController ns) key cl).2).1
    = (reconcile (NewController ns) key cl).1 ∧
  agents (reconcile (NewController ns) key (reconcile (NewController ns) key cl).2).2
    = agents (reconcile (NewController ns) key cl).2 ∧
  pods (reconcile (NewController ns) key (reconcile (NewController ns) key cl).2).2
    = pods (reconcile (NewController ns) key cl).2 ∧
  deployments (reconcile (NewController ns) key (reconcile (NewController ns) key cl).2).2
    = deployments (reconcile (NewController ns) key cl).2 ∧
  ∃ rs,
    requests (reconcile (NewController ns) key (reconcile (NewController ns) key cl).2).2
      = requests (reconcile (NewController ns) key cl).2 ++ rs ∧
    Forall read_request rs.
Proof.
  intros Hf.
  destruct (reconcile (NewController ns) key cl) as [err1 cl1] eqn:Hr1.
  destruct (reconcile_effect ns key cl cl1 err1 Hf Hr1) as (Hf1 & Hag & _ & _ & Hmade).
  assert (next_fault cl = None) as Hnf by (unfold next_fault; by rewrite Hf).
  assert (next_fault cl1 = None) as Hnf1 by (unfold next_fault; by rewrite Hf1).
  simpl.
  destruct (SplitMetaNamespaceKey key) as [e|[nsA name]] eqn:Hk.
  { unfold reconcile in *. rewrite Hk in *. simplify_eq. simpl.
    split_and!; [done..|]. exists []. by rewrite app_nil_r. }
  destruct (agents cl !! (nsA, name)) as [agent|] eqn:Ha.
  - destruct (Hmade nsA name agent eq_refl Ha) as [p Hp].
    assert (err1 = None) as ->.
    { rewrite (reconcile_agent_present _ _ nsA name _ agent) in Hr1 by done.
      simpl in Hr1.
      set (c0 := mkCluster _ _ _ _ _) in Hr1.
      destruct (pods cl !! pod_key ns (agent_Name agent)) as [p0|] eqn:Hp0.
      - rewrite (Reconcile_pod_present _ _ c0 p0) in Hr1
          by (done || (unfold next_fault; simpl; by rewrite Hf)).
        by simplify_eq.
      - rewrite (Reconcile_pod_absent _ _ c0) in Hr1
          by (done || (simpl; by rewrite Hf)).
        by simplify_eq. }
    rewrite (reconcile_agent_present _ _ nsA name _ agent) by (done || congruence).
    simpl.
    rewrite (Reconcile_pod_present _ _ _ p)
      by (done || (unfold next_fault; simpl; by rewrite Hf1)).
    simpl.
    split_and!; [done..|]. eexists. rewrite <- app_assoc. split; [done|].
    repeat constructor.
  - assert (err1 = None) as ->.
    { rewrite (reconcile_agent_absent _ _ nsA name) in Hr1 by done. by simplify_eq. }
    rewrite (reconcile_agent_absent _ _ nsA name) by (done || congruence). simpl.
    split_and!; [done..|]. eexists. split; [done|]. repeat constructor.
Qed.

End reconcile_more.

(** ** Retry counts, timers and the closing of the queue *)

Section queue_bookkeeping.
Import K8s Controller Further.

Context (c : Controller) (l : WorkQueue.RateLimiter).

Lemma Add_waiting key q : WorkQueue.waiting (WorkQueue.Add key q) = WorkQueue.waiting q.
Proof. unfold WorkQueue.Add. by repeat case_match. Qed.

Lemma Add_limiter key q : WorkQueue.limiter (WorkQueue.Add key q) = WorkQueue.limiter q.
Proof. unfold WorkQueue.Add. by repeat case_match. Qed.

Lemma NumRequeues_Add key k q :
  WorkQueue.NumRequeues k (WorkQueue.Add key q) = WorkQueue.NumRequeues k q.
Proof. unfold WorkQueue.NumRequeues. by rewrite Add_failures. Qed.

Lemma retries_bounded_initial cl : retries_bounded c l (initial cl l).
Proof.
  unfold retries_bounded, initial, WorkQueue.NumRequeues. simpl. split_and!; [done| |].
  - intros key. rewrite lookup_empty. simpl. lia.
  - intros key d Hin. by apply elem_of_nil in Hin.
Qed.

Lemma retries_bounded_finish key err q :
  WorkQueue.limiter q = l →
  (∀ k, (WorkQueue.NumRequeues k q ≤ maxRetries c)%nat) →
  (∀ k d, (k, d) ∈ WorkQueue.waiting q →
          ∃ n, (n < maxRetries c)%nat ∧ d = WorkQueue.delay l n) →
  WorkQueue.limiter (finish c key err q).1 = l ∧
  (∀ k, (WorkQueue.NumRequeues k (finish c key err q).1 ≤ maxRetries c)%nat) ∧
  (∀ k d, (k, d) ∈ WorkQueue.waiting (finish c key err q).1 →
          ∃ n, (n < maxRetries c)%nat ∧ d = WorkQueue.delay l n).
Proof.
  intros Hl Hn Hw.
  assert (∀ k, (WorkQueue.NumRequeues k (WorkQueue.Forget key q) ≤ maxRetries c)%nat)
    as Hforget.
  { intros k. unfold WorkQueue.NumRequeues, WorkQueue.Forget. simpl.
    destruct (decide (k = key)) as [->|Hne].
    - rewrite lookup_delete_eq. simpl. lia.
    - rewrite lookup_delete_ne by done. apply Hn. }
  unfold finish. destruct err as [e|]; [case_decide as Hlt|]; simpl;
    [|by split_and!..].
  unfold WorkQueue.AddRateLimited, WorkQueue.When, WorkQueue.AddAfter. simpl.
  assert (∀ k, (default 0%nat (<[key := S (WorkQueue.NumRequeues key q)]>
                                 (WorkQueue.failures q) !! k) ≤ maxRetries c)%nat)
    as Hcount.
  { intros k. destruct (decide (k = key)) as [->|Hne].
    - rewrite lookup_insert_eq. simpl. lia.
    - rewrite lookup_insert_ne by done. apply Hn. }
  destruct (WorkQueue.shuttingDown q); simpl; (split_and!; [done|exact Hcount|]);
    [done|].
  intros k d [Hin|Hin%list_elem_of_singleton]%elem_of_app; [eauto|].
  injection Hin as -> ->. rewrite Hl. eauto.
Qed.

Lemma retries_bounded_step lb s s' :
  retries_bounded c l s → step c lb s = Some s' → retries_bounded c l s'.
Proof.
  intros HP Hstep. unfold retries_bounded in *.
  step_cases Hstep; destruct HP as (Hl & Hn & Hw); try done.
  - (* Notify *)
    rewrite on_notification_Add, Add_limiter, Add_waiting.
    split_and!; [done| |done]. intros key. by rewrite NumRequeues_Add.
  - (* WorkerGet *)
    match goal with H : WorkQueue.Get _ = _ |- _ =>
      apply Get_Item in H as (rest & Hq & ->) end.
    done.
  - (* WorkerFinish *)
    match goal with H : finish _ ?key ?err ?q = (?t, _) |- _ =>
      assert (t = (finish c key err q).1) as -> by (by rewrite H); clear H
    end.
    by apply retries_bounded_finish.
  - (* TimerFired *)
    match goal with H : WorkQueue.Fire _ _ = _ |- _ =>
      apply Fire_fields in H as (key & d & _ & ->) end.
    rewrite Add_limiter, Add_waiting. simpl. split_and!; [done| |].
    + intros k. rewrite NumRequeues_Add. apply Hn.
    + intros k d' Hin. apply (Hw k d').
      apply list_elem_of_lookup in Hin as [j Hj].
      apply list_elem_of_lookup.
      destruct (decide (j < idx)%nat).
      * exists j. by rewrite list_lookup_delete_lt in Hj.
      * exists (S j). by rewrite list_lookup_delete_ge in Hj by lia.
Qed.

(** X16: the retry count of a key never exceeds [maxRetries], and every
    retry timer carries the backoff of a retry count below [maxRetries]: with
    a non-negative base delay no retry of the controller ever waits longer
    than the backoff of retry count [maxRetries - 1]. *)
Theorem retries_never_exceed_the_ceiling
    (cl : Cluster) (ls : list label) (s : State) :
  run c ls (initial cl l) = Some s →
  (∀ key, (WorkQueue.NumRequeues key (queue s) ≤ maxRetries c)%nat) ∧
  (∀ key d, (key, d) ∈ WorkQueue.waiting (queue s) →
            ∃ n, (n < maxRetries c)%nat ∧ d = WorkQueue.delay l n) ∧
  ((0 ≤ WorkQueue.baseDelay l)%Z →
   ∀ key d, (key, d) ∈ WorkQueue.waiting (queue s) →
            (d ≤ WorkQueue.delay l (maxRetries c - 1))%Z).
Proof.
  intros Hrun.
  assert (retries_bounded c l s) as (_ & Hn & Hw).
  { revert Hrun. apply run_invariant; [apply retries_bounded_step|].
    apply retries_bounded_initial. }
  split_and!; [done..|].
  intros Hb key d Hin. destruct (Hw key d Hin) as (n & Hlt & ->).
  apply delay_mono; [done|lia].
Qed.

End queue_bookkeeping.

Section closing.
Import K8s Controller Further.

Context (c : Controller).

Lemma closed_with_Run_step lb s s' :
  closed_with_Run s → step c lb s = Some s' → closed_with_Run s'.
Proof.
  intros HP Hstep. unfold closed_with_Run in *.
  step_cases Hstep; destruct HP as (Hiff & Hstop & Hex); try done.
  - (* Notify *)
    by rewrite on_notification_Add, Add_shuttingDown.
  - (* RunCalled *)
    split_and!; [split; [|done]|done|].
    + intros Hs. apply Hiff in Hs. congruence.
    + intros i Hi. apply Hex in Hi. congruence.
  - (* SyncReturnedTrue *)
    split_and!; [split; [|done]|done|].
    + intros Hs. apply Hiff in Hs. congruence.
    + by intros i [? _]%lookup_replicate_1.
  - (* WorkerGet, an item *)
    match goal with H : WorkQueue.Get _ = _ |- _ =>
      apply Get_Item in H as (rest & Hq & ->) end.
    simpl. split_and!; [done..|].
    intros i [(-> & ? & _)|[Hne Hi]]%list_lookup_insert_Some; [done|eauto].
  - (* WorkerGet, closed *)
    assert (pc s = Returned) as Hret.
    { apply Hiff. match goal with H : WorkQueue.Get _ = _ |- _ =>
        unfold WorkQueue.Get in H; repeat case_match; by simplify_eq end. }
    split_and!; done.
  - (* WorkerReconcile *)
    split_and!; [done..|].
    intros i [(-> & ? & _)|[Hne Hi]]%list_lookup_insert_Some; [done|eauto].
  - (* WorkerFinish *)
    match goal with H : finish _ ?key ?err ?q = (?t, _) |- _ =>
      assert (t = (finish c key err q).1) as -> by (by rewrite H);
      pose proof (finish_fields c key err q) as (_ & _ & _ & Hs & _)
    end.
    rewrite Hs. split_and!; [done..|].
    intros i [(-> & ? & _)|[Hne Hi]]%list_lookup_insert_Some; [done|eauto].
  - (* TimerFired *)
    match goal with H : WorkQueue.Fire _ _ = _ |- _ =>
      apply Fire_fields in H as (key & d & _ & ->) end.
    by rewrite Add_shuttingDown.
Qed.

Lemma closed_with_Run_initial cl l : closed_with_Run (initial cl l).
Proof. unfold closed_with_Run, initial. simpl. split_and!; [split|..]; done. Qed.

(** X17: the queue is closed exactly when [Run] has returned, [Run] returns
    only with [stopCh] closed, and a worker leaves [worker] only after [Run]
    has returned. Once [Run] has returned no notification is delivered any
    more and an [Add] leaves the queue as it is. *)
Theorem workers_leave_only_after_Run_returned
    (cl : Cluster) (l : WorkQueue.RateLimiter) (ls : list label) (s : State) :
  run c ls (initial cl l) = Some s →
  (WorkQueue.shuttingDown (queue s) = true ↔ pc s = Returned) ∧
  (pc s = Returned → stopCh s = true) ∧
  (∀ i, workers s !! i = Some Exited → pc s = Returned) ∧
  (pc s = Returned →
   (∀ n, step c (Notify n) s = None) ∧
   (∀ key, WorkQueue.Add key (queue s) = queue s)).
Proof.
  intros Hrun.
  assert (closed_with_Run s) as (Hiff & Hstop & Hex).
  { revert Hrun. apply run_invariant; [apply closed_with_Run_step|].
    apply closed_with_Run_initial. }
  split_and!; [done..|].
  intros Hret. split.
  - intros n. simpl. unfold informer_running. rewrite Hret, (Hstop Hret). done.
  - intros key. apply Add_closed. by apply Hiff.
Qed.

End closing.

(** ** The further properties on concrete inputs *)

Section further_inputs.
Import K8s Orchestrator Samples Further.

Lemma deployments_named_check c :
  bool_decide (map_Forall (λ k d, meta_Name (dep_ObjectMeta d) = k.2) (deployments c)) = true →
  deployments_named c.
Proof.
  intros Hall%bool_decide_eq_true ns name d Hd. exact (Hall (ns, name) d Hd).
Qed.

(** [agent-test] is deployed on the empty cluster. *)
Lemma DeployAgent_then_fetch_witness :
  faults empty_cluster = [] ∧
  deployments empty_cluster !! ("default", "agent-test") = None ∧
  (Container.DeployAgent (Container.mkAdapter "default") task_create empty_cluster).1
    = Container.Nil.
Proof.
  split; [reflexivity|]. split; [vm_compute; reflexivity|].
  destruct (DeployAgent_then_fetch (Container.mkAdapter "default") task_create
              empty_cluster) as [Hnil _].
  - reflexivity.
  - vm_compute; reflexivity.
  - exact Hnil.
Defined.

(** A second task for [agent-test] after the first was deployed. *)
Lemma DeployAgent_same_agent_collides_witness :
  faults empty_cluster = [] ∧
  Container.AgentID task_update = Container.AgentID task_create ∧
  deployments empty_cluster !! ("default", "agent-test") = None ∧
  (Container.DeployAgent (Container.mkAdapter "default") task_update
     (Container.DeployAgent (Container.mkAdapter "default") task_create
        empty_cluster).2).1
    = Container.Err (ErrWrap "deploy error: " (ErrAlreadyExists "agent-test")).
Proof.
  split; [reflexivity|]. split; [reflexivity|]. split; [vm_compute; reflexivity|].
  destruct (DeployAgent_same_agent_collides (Container.mkAdapter "default")
              task_create task_update empty_cluster) as (_ & Herr & _).
  - reflexivity.
  - reflexivity.
  - vm_compute; reflexivity.
  - exact Herr.
Defined.

(** [agent-test] is deployed with [test-image:v1], then updated to
    [test-image:v2]. *)
Lemma Deploy_then_Update_witness :
  faults empty_cluster = [] ∧
  Container.AgentID task_update = Container.AgentID task_create ∧
  deployments empty_cluster !! ("default", "agent-test") = None ∧
  (Container.UpdateAgent (Container.mkAdapter "default") task_update
     (Container.DeployAgent (Container.mkAdapter "default") task_create
        empty_cluster).2).1 = Container.Nil.
Proof.
  split; [reflexivity|]. split; [reflexivity|]. split; [vm_compute; reflexivity|].
  destruct (Deploy_then_Update (Container.mkAdapter "default")
              task_create task_update empty_cluster) as (Hnil & _).
  - reflexivity.
  - reflexivity.
  - vm_compute; reflexivity.
  - exact Hnil.
Defined.

(** [agent-test] is deployed, then deleted. *)
Lemma Deploy_then_Delete_witness :
  faults empty_cluster = [] ∧
  Container.AgentID task_delete = Container.AgentID task_create ∧
  deployments empty_cluster !! ("default", "agent-test") = None ∧
  deployments
    (Container.DeleteAgent (Container.mkAdapter "default") task_delete
       (Container.DeployAgent (Container.mkAdapter "default") task_create
          empty_cluster).2).2 = deployments empty_cluster.
Proof.
  split; [reflexivity|]. split; [reflexivity|]. split; [vm_compute; reflexivity|].
  destruct (Deploy_then_Delete (Container.mkAdapter "default")
              task_create task_delete empty_cluster) as (_ & _ & Hsame).
  - reflexivity.
  - reflexivity.
  - vm_compute; reflexivity.
  - exact Hsame.
Defined.

(** An update and a delete of [agent-test] on the empty cluster. *)
Lemma Update_and_Delete_of_missing_deployment_witness :
  next_fault empty_cluster = None ∧
  deployments empty_cluster !! ("default", "agent-test") = None ∧
  (Container.UpdateAgent (Container.mkAdapter "default") task_update empty_cluster).1
    = Container.Err (ErrNotFound "agent-test") ∧
  (Container.DeleteAgent (Container.mkAdapter "default") task_delete empty_cluster).1
    = Container.Err (ErrNotFound "agent-test").
Proof.
  split; [reflexivity|]. split; [vm_compute; reflexivity|].
  destruct (Update_and_Delete_of_missing_deployment (Container.mkAdapter "default")
              task_update empty_cluster) as (Hupd & _).
  - reflexivity.
  - vm_compute; reflexivity.
  - split; [exact Hupd|]. vm_compute; reflexivity.
Defined.

(** The store holds the agent [default/a1], its pod and the deployments of
    [agent-test] and [agent-other]; [agent-test] is updated to
    [test-image:v2]. *)
Lemma adapter_touches_only_its_deployment_witness :
  deployments_named populated ∧
  agents populated !! ("default", "a1") = Some agent_v2 ∧
  pods populated !! ("default", "a1-pod") = Some pod_v1 ∧
  deployments populated !! ("default", "agent-other") ≠ None ∧
  deployments populated !! ("default", "agent-test") = Some deployed_deployment ∧
  agents (Container.UpdateAgent (Container.mkAdapter "default") task_update populated).2
    = agents populated ∧
  pods (Container.UpdateAgent (Container.mkAdapter "default") task_update populated).2
    = pods populated ∧
  deployments
    (Container.UpdateAgent (Container.mkAdapter "default") task_update populated).2
    !! ("default", "agent-other") = deployments populated !! ("default", "agent-other") ∧
  deployments
    (Container.UpdateAgent (Container.mkAdapter "default") task_update populated).2
    !! ("default", "agent-test") ≠ Some deployed_deployment ∧
  deployments_named
    (Container.UpdateAgent (Container.mkAdapter "default") task_update populated).2.
Proof.
  assert (deployments_named populated) as Hnamed
    by (apply deployments_named_check; vm_compute; reflexivity).
  split; [exact Hnamed|].
  split; [vm_compute; reflexivity|]. split; [vm_compute; reflexivity|].
  split; [vm_compute; discriminate|]. split; [vm_compute; reflexivity|].
  destruct (adapter_touches_only_its_deployment (Container.mkAdapter "default")
              task_update populated Container.UpdateAgent Hnamed)
    as (Hagents & Hpods & Hothers & Hnamed').
  - right. left. reflexivity.
  - split; [exact Hagents|]. split; [exact Hpods|].
    split; [apply Hothers; vm_compute; discriminate|].
    split; [vm_compute; discriminate|exact Hnamed'].
Defined.

(** A hundred tasks are submitted to the orchestrator of the test and none
    is taken: the next [SubmitTask] blocks. *)
Lemma SubmitTask_blocks_at_capacity_witness :
  Orchestrator.run full_channel test_orchestrator
    = Some (orchestrator_after full_channel) ∧
  length (buf (taskQueue (orchestrator_after full_channel))) = 100%nat ∧
  Orchestrator.step (SubmitTask task_update) (orchestrator_after full_channel) = None.
Proof.
  assert (Orchestrator.run full_channel test_orchestrator
          = Some (orchestrator_after full_channel)) as Hrun
    by (vm_compute; reflexivity).
  assert (length (buf (taskQueue (orchestrator_after full_channel))) = 100%nat)
    as Hlen by (vm_compute; reflexivity).
  destruct (SubmitTask_blocks_at_capacity test_mock 2 full_channel
              (orchestrator_after full_channel) Hrun) as (_ & Hfull & _).
  split; [exact Hrun|]. split; [exact Hlen|].
  apply Hfull; [vm_compute; reflexivity|exact Hlen].
Defined.

(** Two tasks are submitted and taken by two workers. *)
Lemma tasks_are_received_in_submission_order_witness :
  Orchestrator.run same_agent_twice test_orchestrator
    = Some (orchestrator_after same_agent_twice) ∧
  submitted_tasks (events (orchestrator_after same_agent_twice)) =
    received_tasks (events (orchestrator_after same_agent_twice)) ++
    buf (taskQueue (orchestrator_after same_agent_twice)).
Proof.
  assert (Orchestrator.run same_agent_twice test_orchestrator
          = Some (orchestrator_after same_agent_twice)) as Hrun
    by (vm_compute; reflexivity).
  split; [exact Hrun|].
  exact (tasks_are_received_in_submission_order test_mock 2 same_agent_twice
           (orchestrator_after same_agent_twice) Hrun).
Defined.

(** [Shutdown] has returned on the orchestrator of the test and is called
    again. *)
Lemma second_Shutdown_panics_witness :
  Orchestrator.run shutdown_only test_orchestrator
    = Some (orchestrator_after shutdown_only) ∧
  shutdown (orchestrator_after shutdown_only) = Finished ∧
  panicked (orchestrator_after shutdown_only) = None ∧
  ∃ o1 o2,
    Orchestrator.step ShutdownCancel (orchestrator_after shutdown_only) = Some o1 ∧
    Orchestrator.step ShutdownClose o1 = Some o2 ∧
    panicked o2 = Some "close of closed channel".
Proof.
  assert (Orchestrator.run shutdown_only test_orchestrator
          = Some (orchestrator_after shutdown_only)) as Hrun
    by (vm_compute; reflexivity).
  split; [exact Hrun|]. split; [vm_compute; reflexivity|].
  split; [vm_compute; reflexivity|].
  apply (second_Shutdown_panics test_mock 2 shutdown_only
           (orchestrator_after shutdown_only) Hrun).
  - vm_compute; reflexivity.
  - vm_compute; reflexivity.
Defined.

(** The run of the test: one task, then [Shutdown]. *)
Lemma workers_run_until_Shutdown_witness :
  Orchestrator.run orderly_shutdown test_orchestrator
    = Some (orchestrator_after orderly_shutdown) ∧
  closed (taskQueue (orchestrator_after orderly_shutdown)) = true ∧
  length (workers (orchestrator_after orderly_shutdown)) = 2%nat ∧
  ShutdownReturned ∈ events (orchestrator_after orderly_shutdown).
Proof.
  assert (Orchestrator.run orderly_shutdown test_orchestrator
          = Some (orchestrator_after orderly_shutdown)) as Hrun
    by (vm_compute; reflexivity).
  assert (closed (taskQueue (orchestrator_after orderly_shutdown)) = true) as Hcl
    by (vm_compute; reflexivity).
  destruct (workers_run_until_Shutdown test_mock 2 orderly_shutdown
              (orchestrator_after orderly_shutdown) Hrun) as (Hlen & _ & _ & Hclosed).
  split; [exact Hrun|]. split; [exact Hcl|]. split; [exact Hlen|].
  exact (proj1 (Hclosed Hcl)).
Defined.


(** The agent [default/a1] without a pod is reconciled twice. *)
Lemma reconcile_twice_is_reconcile_once_witness :
  faults unreconciled = [] ∧
  pods (Controller.reconcile controller "default/a1"
          (Controller.reconcile controller "default/a1" unreconciled).2).2
    = pods (Controller.reconcile controller "default/a1" unreconciled).2.
Proof.
  split; [reflexivity|].
  destruct (reconcile_twice_is_reconcile_once "default" "default/a1" unreconciled)
    as (_ & _ & Hpods & _).
  - reflexivity.
  - exact Hpods.
Defined.

(** [default/a1] has failed five times and its fifth timer is waiting. *)
Lemma retries_never_exceed_the_ceiling_witness :
  Controller.run controller five_failures failing_start = Some after_five_failures ∧
  (WorkQueue.NumRequeues "default/a1" (Controller.queue after_five_failures)
     ≤ Controller.maxRetries controller)%nat.
Proof.
  assert (Controller.run controller five_failures failing_start
          = Some after_five_failures) as Hrun by (vm_compute; reflexivity).
  split; [exact Hrun|].
  exact (proj1 (retries_never_exceed_the_ceiling controller limiter failing_cluster
                  five_failures after_five_failures Hrun) "default/a1").
Defined.

(** [stopCh] is closed before the informer has synced, and [Run] returns. *)
Lemma workers_leave_only_after_Run_returned_witness :
  Controller.run controller sync_failed start = Some (after sync_failed) ∧
  Controller.pc (after sync_failed) = Controller.Returned ∧
  Controller.stopCh (after sync_failed) = true.
Proof.
  assert (Controller.run controller sync_failed start = Some (after sync_failed))
    as Hrun by (vm_compute; reflexivity).
  assert (Controller.pc (after sync_failed) = Controller.Returned) as Hret
    by (vm_compute; reflexivity).
  destruct (workers_leave_only_after_Run_returned controller empty_cluster limiter
              sync_failed (after sync_failed) Hrun) as (_ & Hstop & _).
  split; [exact Hrun|]. split; [exact Hret|exact (Hstop Hret)].
Defined.

End further_inputs.
